(** * Wake word engine of [mycroft_dinkum_listener/plugins/ww_tflite.py]

    A shallow embedding of the audio codec ([buffer_to_audio],
    [audio_to_buffer]), of the geometry derived by [ListenerParams] and of
    [TFLiteHotWordEngine] ([update], [reset], the activation counter), and
    the properties of them that the specification states.

    Conventions.
    - Python [int] is [Z]; [//] is [Z.div] (both round toward minus
      infinity) and raises [ZeroDivisionError] on a zero divisor.
    - Python [float] is a binary64 number: [PrimFloat.float], with the
      kernel's IEEE operations.  The scorer output is a [numpy.float32]
      value, which binary64 holds exactly.  Its comparisons with 0.0 and
      1.0 are those of [PrimFloat]; how it is compared with the Python
      float [1.0 - sensitivity] depends on the version of NumPy, see
      [activated].
    - Audio samples are rationals.  Every finite binary floating-point
      number is one, and the two operations the codec applies to a sample,
      the division and the product by [32768 = 2^15], are exact in binary
      floating point.
    - [bytes] is [list byte].
    - A Python exception is a value [Raise e] of the [result] type. *)

From Stdlib Require Import ZArith QArith List Bool Lia Floats.
From Stdlib Require Import Strings.Byte.
Import ListNotations.

#[local] Set Warnings "-inexact-float".
#[local] Open Scope Z_scope.

(** ** Exceptions *)

Inductive exn : Set :=
| ValueError
| ZeroDivisionError
| OverflowError.

Inductive result (A : Type) : Type :=
| Ok (a : A)
| Raise (e : exn).

Arguments Ok {A} a.
Arguments Raise {A} e.

Definition bind {A B : Type} (r : result A) (k : A -> result B) : result B :=
  match r with
  | Ok a => k a
  | Raise e => Raise e
  end.

Notation "x <- r ;; k" := (bind r (fun x => k))
  (at level 61, r at next level, right associativity).

(** ** Python arithmetic *)

(** [a // b] on integers. *)
Definition floordiv (a b : Z) : result Z :=
  if b =? 0 then Raise ZeroDivisionError else Ok (a / b).

(** [float(z)]: the nearest binary64 number, ties to even. *)
Definition float_of_int (z : Z) : result float :=
  let f := SF2Prim (binary_normalize prec emax z 0 false) in
  if is_infinity f then Raise OverflowError else Ok f.

(** [int(f)]: truncation toward zero. *)
Definition int_of_float (f : float) : result Z :=
  match Prim2SF f with
  | S754_zero _ => Ok 0
  | S754_finite s m e =>
      let v := if 0 <=? e then Z.pos m * 2 ^ e else Z.pos m / 2 ^ (- e) in
      Ok (if s then - v else v)
  | S754_infinity _ => Raise OverflowError
  | S754_nan => Raise ValueError
  end.

(** [math.floor(f)]. *)
Definition floor (f : float) : result Z :=
  match Prim2SF f with
  | S754_zero _ => Ok 0
  | S754_finite s m e =>
      let n := if s then Z.neg m else Z.pos m in
      Ok (if 0 <=? e then n * 2 ^ e else n / 2 ^ (- e))
  | S754_infinity _ => Raise OverflowError
  | S754_nan => Raise ValueError
  end.

(** [a / b] on integers: the binary64 number nearest to the exact quotient.
    The quotient of the magnitudes is taken with 64 bits and more, its low
    bit records a non-zero remainder, and one rounding gives the result. *)
Definition truediv (a b : Z) : result float :=
  if b =? 0 then Raise ZeroDivisionError
  else
    let s := Z.log2 (Z.abs b) + 64 in
    let n := Z.abs a * 2 ^ s in
    let q := n / Z.abs b in
    let sticky := if n mod Z.abs b =? 0 then 0 else 1 in
    let m := Z.sgn a * Z.sgn b * (2 * q + sticky) in
    let f := SF2Prim (binary_normalize prec emax m (- (s + 1)) (b <? 0)) in
    if is_infinity f then Raise OverflowError else Ok f.

(** [l[k:]] *)
Definition slice_from {A : Type} (k : Z) (l : list A) : list A :=
  if k <? 0 then skipn (Z.to_nat (Z.of_nat (length l) + k)) l
  else skipn (Z.to_nat k) l.

(** ** Audio codec *)

Definition MAX_WAV_VALUE : Z := 32768.

Definition byte_val (b : byte) : Z := Z.of_N (Byte.to_N b).

Definition byte_of_Z (z : Z) : byte :=
  match Byte.of_N (Z.to_N (z mod 256)) with
  | Some b => b
  | None => x00
  end.

(** One item of dtype ["<i2"]: two bytes, low byte first, two's complement. *)
Definition int16_le (lo hi : byte) : Z :=
  let u := byte_val lo + 256 * byte_val hi in
  if u <? 32768 then u else u - 65536.

Fixpoint i2_items (b : list byte) : list Z :=
  match b with
  | lo :: hi :: rest => int16_le lo hi :: i2_items rest
  | _ => []
  end.

(** [np.frombuffer(b, dtype="<i2")]: "buffer size must be a multiple of
    element size" is checked before any item is read. *)
Definition frombuffer_i2 (b : list byte) : result (list Z) :=
  if Z.of_nat (length b) mod 2 =? 0 then Ok (i2_items b) else Raise ValueError.

Definition buffer_to_audio (audio_buffer : list byte) : result (list Q) :=
  a <- frombuffer_i2 audio_buffer ;;
  Ok (map (fun i => Qmake i (Z.to_pos MAX_WAV_VALUE)) a).

(** The integer part of a rational, toward zero. *)
Definition Qtrunc (x : Q) : Z := Z.quot (Qnum x) (Z.pos (Qden x)).

(** The 16 low bits of an integer read as a signed number. *)
Definition wrap_int16 (z : Z) : Z := (z + 32768) mod 65536 - 32768.

(** [.astype("<i2")] on one finite float: a C conversion to a 16-bit
    integer.  It drops the fraction.  C leaves open what becomes of a
    value that does not fit; on x86-64 the conversion goes through a
    32-bit register, of which the low 16 bits are kept, and a value that
    does not fit 32 bits either gives the register's "integer indefinite"
    value [0x80000000], whose low 16 bits are 0.  NaN and the infinities
    are not samples of this model. *)
Definition astype_i2 (x : Q) : Z :=
  let t := Qtrunc x in
  if (- 2 ^ 31 <=? t) && (t <? 2 ^ 31) then wrap_int16 t else 0.

Definition tobytes_i2 (i : Z) : list byte := [byte_of_Z i; byte_of_Z (i / 256)].

(** The 16-bit integer that stands for one sample in
    [(audio * MAX_WAV_VALUE).astype("<i2")]. *)
Definition sample_int16 (x : Q) : Z := astype_i2 (x * inject_Z MAX_WAV_VALUE)%Q.

Definition audio_to_buffer (audio : list Q) : list byte :=
  flat_map (fun x => tobytes_i2 (sample_int16 x)) audio.

(** Decoding and encoding again. *)
Definition round_trip (b : list byte) : result (list byte) :=
  audio <- buffer_to_audio b ;;
  Ok (audio_to_buffer audio).

(** ** Listener parameters *)

Module Vectorizer.
Inductive t : Set :=
| mels
| mfccs
| speechpy_mfccs.
End Vectorizer.

Record ListenerParams : Set := {
  buffer_t : float;
  window_t : float;
  hop_t : float;
  sample_rate : Z;
  sample_depth : Z;
  n_fft : Z;
  n_filt : Z;
  n_mfcc : Z;
  use_delta : bool;
  vectorizer : Vectorizer.t;
  threshold_config : list (list Z);
  threshold_center : float
}.

(** [ListenerParams()] *)
Definition default_params : ListenerParams := {|
  buffer_t := 1.5;
  window_t := 0.1;
  hop_t := 0.05;
  sample_rate := 16000;
  sample_depth := 2;
  n_fft := 512;
  n_filt := 20;
  n_mfcc := 13;
  use_delta := false;
  vectorizer := Vectorizer.mfccs;
  threshold_config := [[6; 4]];
  threshold_center := 0.2
|}.

(** [int(self.sample_rate * t + 0.5)] *)
Definition to_samples (rate : Z) (t : float) : result Z :=
  r <- float_of_int rate ;;
  int_of_float (r * t + 0.5)%float.

Definition window_samples (p : ListenerParams) : result Z :=
  to_samples (sample_rate p) (window_t p).

Definition hop_samples (p : ListenerParams) : result Z :=
  to_samples (sample_rate p) (hop_t p).

Definition buffer_samples (p : ListenerParams) : result Z :=
  samples <- to_samples (sample_rate p) (buffer_t p) ;;
  h <- hop_samples p ;;
  h' <- hop_samples p ;;
  q <- floordiv samples h' ;;
  Ok (h * q).

Definition n_features (p : ListenerParams) : result Z :=
  b <- buffer_samples p ;;
  w <- window_samples p ;;
  h <- hop_samples p ;;
  x <- truediv (b - w) h ;;
  n <- floor x ;;
  Ok (1 + n).

Definition max_samples (p : ListenerParams) : result Z :=
  r <- float_of_int (sample_rate p) ;;
  int_of_float (buffer_t p * r)%float.

Definition feature_size (p : ListenerParams) : Z :=
  let num_features :=
    match vectorizer p with
    | Vectorizer.mfccs => n_mfcc p
    | Vectorizer.mels => n_filt p
    | Vectorizer.speechpy_mfccs => n_mfcc p
    end in
  if use_delta p then num_features * 2 else num_features.

(** ** The wake word engine *)

(** One timestep of features (a row of MFCC coefficients). *)
Definition frame : Set := list float.

Record TFLiteHotWordEngine : Set := {
  sensitivity : float;
  trigger_level : Z;
  chunk_size : Z;
  _params : ListenerParams;
  _inputs : list frame;
  _inputs_idx : Z;
  _window_bytes : Z;
  _hop_bytes : Z;
  _chunk_buffer : list byte;
  _activation : Z;
  _is_found : bool;
  _probability : option float
}.

(** Assignments to the attributes that change after construction. *)

Definition set_inputs (v : list frame) (self : TFLiteHotWordEngine) :=
  {| sensitivity := sensitivity self; trigger_level := trigger_level self;
     chunk_size := chunk_size self; _params := _params self;
     _inputs := v; _inputs_idx := _inputs_idx self;
     _window_bytes := _window_bytes self; _hop_bytes := _hop_bytes self;
     _chunk_buffer := _chunk_buffer self; _activation := _activation self;
     _is_found := _is_found self; _probability := _probability self |}.

Definition set_inputs_idx (v : Z) (self : TFLiteHotWordEngine) :=
  {| sensitivity := sensitivity self; trigger_level := trigger_level self;
     chunk_size := chunk_size self; _params := _params self;
     _inputs := _inputs self; _inputs_idx := v;
     _window_bytes := _window_bytes self; _hop_bytes := _hop_bytes self;
     _chunk_buffer := _chunk_buffer self; _activation := _activation self;
     _is_found := _is_found self; _probability := _probability self |}.

Definition set_chunk_buffer (v : list byte) (self : TFLiteHotWordEngine) :=
  {| sensitivity := sensitivity self; trigger_level := trigger_level self;
     chunk_size := chunk_size self; _params := _params self;
     _inputs := _inputs self; _inputs_idx := _inputs_idx self;
     _window_bytes := _window_bytes self; _hop_bytes := _hop_bytes self;
     _chunk_buffer := v; _activation := _activation self;
     _is_found := _is_found self; _probability := _probability self |}.

Definition set_activation (v : Z) (self : TFLiteHotWordEngine) :=
  {| sensitivity := sensitivity self; trigger_level := trigger_level self;
     chunk_size := chunk_size self; _params := _params self;
     _inputs := _inputs self; _inputs_idx := _inputs_idx self;
     _window_bytes := _window_bytes self; _hop_bytes := _hop_bytes self;
     _chunk_buffer := _chunk_buffer self; _activation := v;
     _is_found := _is_found self; _probability := _probability self |}.

Definition set_is_found (v : bool) (self : TFLiteHotWordEngine) :=
  {| sensitivity := sensitivity self; trigger_level := trigger_level self;
     chunk_size := chunk_size self; _params := _params self;
     _inputs := _inputs self; _inputs_idx := _inputs_idx self;
     _window_bytes := _window_bytes self; _hop_bytes := _hop_bytes self;
     _chunk_buffer := _chunk_buffer self; _activation := _activation self;
     _is_found := v; _probability := _probability self |}.

Definition set_probability (v : option float) (self : TFLiteHotWordEngine) :=
  {| sensitivity := sensitivity self; trigger_level := trigger_level self;
     chunk_size := chunk_size self; _params := _params self;
     _inputs := _inputs self; _inputs_idx := _inputs_idx self;
     _window_bytes := _window_bytes self; _hop_bytes := _hop_bytes self;
     _chunk_buffer := _chunk_buffer self; _activation := _activation self;
     _is_found := _is_found self; _probability := v |}.

(** [np.zeros((1, rows, cols))], without the leading axis of length one. *)
Definition zeros (rows cols : Z) : result (list frame) :=
  if (rows <? 0) || (cols <? 0) then Raise ValueError
  else Ok (repeat (repeat 0%float (Z.to_nat cols)) (Z.to_nat rows)).

(** [np.roll(inputs, -k, axis=1)]: row [i] of the result is row
    [(i + k) mod n] of the argument. *)
Definition roll_left {A : Type} (k : Z) (l : list A) : list A :=
  match l with
  | [] => []
  | _ =>
      let r := Z.to_nat (k mod Z.of_nat (length l)) in
      skipn r l ++ firstn r l
  end.

(** A slice bound brought into [0, cap], as Python does for [a[i:j]]. *)
Definition slice_bound (cap i : Z) : Z :=
  if i <? 0 then Z.max 0 (i + cap) else Z.min i cap.

(** [inputs[0, idx:end, :] = rows].  The rows must be as many as the slice
    is long, or one row that is repeated; otherwise numpy raises
    "could not broadcast input array". *)
Definition assign_rows (inputs : list frame) (idx end_idx : Z)
    (rows : list frame) : result (list frame) :=
  let cap := Z.of_nat (length inputs) in
  let start := slice_bound cap idx in
  let stop := slice_bound cap end_idx in
  let len := Z.max 0 (stop - start) in
  let put (new : list frame) :=
    firstn (Z.to_nat start) inputs ++ new ++ skipn (Z.to_nat (start + len)) inputs in
  if Z.of_nat (length rows) =? len then Ok (put rows)
  else
    match rows with
    | [row] => Ok (put (repeat row (Z.to_nat len)))
    | _ => Raise ValueError
    end.

(** The rules by which NumPy brings a [numpy.float32] scalar and a Python
    float to one type: before version 2 both become binary64; from
    version 2 on (NEP 50) the Python float is rounded to float32. *)
Inductive numpy : Set :=
| numpy1
| numpy2.

(** The nearest binary32 number, ties to even; beyond the range, an
    infinity. *)
Definition float32_of (x : float) : float :=
  match Prim2SF x with
  | S754_finite s m e => SF2Prim (binary_round 24 128 s m e)
  | _ => x
  end.

(** [prob > 1.0 - self.sensitivity], with [prob] a [numpy.float32]. *)
Definition activated (np : numpy) (sensitivity prob : float) : bool :=
  match np with
  | numpy1 => (1.0 - sensitivity <? prob)%float
  | numpy2 => (float32_of (1.0 - sensitivity) <? prob)%float
  end.

(** The activation counter, lines 303 to 315 of the source: the new value
    of [self._activation] and [triggered], or the exception of the
    division, which is raised after the increment. *)
Definition decode (np : numpy) (sensitivity : float)
    (trigger_level chunk_size : Z) (activation : Z) (prob : float)
    : Z * result bool :=
  let activated := activated np sensitivity prob in
  if activated || (activation <? 0) then
    let activation := activation + 1 in
    let triggered := trigger_level <? activation in
    if triggered || (activated && (activation <? 0)) then
      match floordiv (- (8 * 2048)) chunk_size with
      | Ok pushed => (pushed, Ok triggered)
      | Raise e => (activation, Raise e)
      end
    else (activation, Ok triggered)
  else if 0 <? activation then (activation - 1, Ok false)
  else (activation, Ok false).

(** How an iteration of the [while] loop ends: [Next] goes back to the
    loop condition ([continue], or the end of the body), [Break] leaves. *)
Inductive flow : Set :=
| Next
| Break.

Section Engine.

(** The feature extractor [sonopy.mfcc_spec(audio, sample_rate,
    (window, hop), num_filt, fft_size, num_coeffs)] and the loaded
    model, [set_tensor; invoke; get_tensor(...)[0][0]], are given. *)
Variable np : numpy.
Variable mfcc_spec : list Q -> Z -> Z * Z -> Z -> Z -> Z -> list frame.
Variable interpreter : list frame -> float.

(** Lines 255 to 285: the features of the buffered audio are put at the
    end of the rolling window.  The result tells whether the window is
    full. *)
Definition insert_features (self : TFLiteHotWordEngine)
    : TFLiteHotWordEngine * result bool :=
  let p := _params self in
  match
    audio <- buffer_to_audio (_chunk_buffer self) ;;
    w <- window_samples p ;;
    h <- hop_samples p ;;
    Ok (mfcc_spec audio (sample_rate p) (w, h) (n_filt p) (n_fft p) (n_mfcc p))
  with
  | Raise e => (self, Raise e)
  | Ok mfccs =>
      let num_timesteps := Z.of_nat (length mfccs) in
      let self :=
        set_chunk_buffer
          (slice_from (num_timesteps * _hop_bytes self) (_chunk_buffer self))
          self in
      let shape1 := Z.of_nat (length (_inputs self)) in
      let inputs_end_idx := _inputs_idx self + num_timesteps in
      let '(self, inputs_end_idx) :=
        if shape1 <? inputs_end_idx then
          let self := set_inputs (roll_left num_timesteps (_inputs self)) self in
          (set_inputs_idx (shape1 - num_timesteps) self, shape1)
        else (self, inputs_end_idx) in
      match assign_rows (_inputs self) (_inputs_idx self) inputs_end_idx mfccs with
      | Raise e => (self, Raise e)
      | Ok inputs =>
          let self := set_inputs inputs self in
          let self := set_inputs_idx (_inputs_idx self + num_timesteps) self in
          (self, Ok (negb (inputs_end_idx <? shape1)))
      end
  end.

(** Lines 289 to 320: the full window is scored and the activation
    counter updated. *)
Definition score (self : TFLiteHotWordEngine)
    : TFLiteHotWordEngine * result flow :=
  let prob := interpreter (_inputs self) in
  if (prob <? 0.0)%float || (1.0 <? prob)%float then (self, Ok Next)
  else
    let self := set_probability (Some prob) self in
    let '(activation, r) :=
      decode np (sensitivity self) (trigger_level self) (chunk_size self)
        (_activation self) prob in
    let self := set_activation activation self in
    match r with
    | Raise e => (self, Raise e)
    | Ok true => (set_is_found true self, Ok Break)
    | Ok false => (self, Ok Next)
    end.

(** The body of [while len(self._chunk_buffer) >= self._window_bytes]. *)
Definition body (self : TFLiteHotWordEngine)
    : TFLiteHotWordEngine * result flow :=
  match insert_features self with
  | (self, Raise e) => (self, Raise e)
  | (self, Ok false) => (self, Ok Next)
  | (self, Ok true) => score self
  end.

(** The loop, run for at most [fuel] iterations; [None] when it has not
    ended by then. *)
Fixpoint process_windows (fuel : nat) (self : TFLiteHotWordEngine)
    : option (TFLiteHotWordEngine * result unit) :=
  if _window_bytes self <=? Z.of_nat (length (_chunk_buffer self)) then
    match fuel with
    | O => None
    | S fuel =>
        match body self with
        | (self, Ok Next) => process_windows fuel self
        | (self, Ok Break) => Some (self, Ok tt)
        | (self, Raise e) => Some (self, Raise e)
        end
    end
  else Some (self, Ok tt).

Definition update (fuel : nat) (self : TFLiteHotWordEngine) (chunk : list byte)
    : option (TFLiteHotWordEngine * result bool) :=
  let self := set_is_found false self in
  let self := set_chunk_buffer (_chunk_buffer self ++ chunk) self in
  let self := set_probability None self in
  match process_windows fuel self with
  | None => None
  | Some (self, Ok _) => Some (self, Ok (_is_found self))
  | Some (self, Raise e) => Some (self, Raise e)
  end.

Definition found_wake_word (self : TFLiteHotWordEngine) : bool := _is_found self.

Definition probability (self : TFLiteHotWordEngine) : option float :=
  _probability self.

Definition reset (self : TFLiteHotWordEngine) : result TFLiteHotWordEngine :=
  n <- n_features (_params self) ;;
  inputs <- zeros n (n_mfcc (_params self)) ;;
  let self := set_inputs inputs self in
  let self := set_activation 0 self in
  let self := set_is_found false self in
  let self := set_inputs_idx 0 self in
  Ok (set_chunk_buffer [] self).

(** [__init__] with [_load_model]: the three settings come from the
    configuration or the arguments, the parameters are [ListenerParams()].
    Fetching and opening the model file is outside the model. *)
Definition __init__ (sensitivity : float) (trigger_level chunk_size : Z)
    : result TFLiteHotWordEngine :=
  let params := default_params in
  w <- window_samples params ;;
  h <- hop_samples params ;;
  n <- n_features params ;;
  inputs <- zeros n (n_mfcc params) ;;
  Ok {| sensitivity := sensitivity; trigger_level := trigger_level;
        chunk_size := chunk_size; _params := params;
        _inputs := inputs; _inputs_idx := 0;
        _window_bytes := w * sample_depth params;
        _hop_bytes := h * sample_depth params;
        _chunk_buffer := []; _activation := 0;
        _is_found := false; _probability := None |}.

(** The answers of successive [update] calls: what each returns or
    raises, and the [probability] property after it.  A call whose loop
    has not ended within [fuel] iterations ends the list with [None]. *)
Fixpoint run (fuel : nat) (self : TFLiteHotWordEngine) (chunks : list (list byte))
    : list (option (result bool * option float)) :=
  match chunks with
  | [] => []
  | chunk :: chunks =>
      match update fuel self chunk with
      | None => [None]
      | Some (self, r) => Some (r, probability self) :: run fuel self chunks
      end
  end.

(** The state after successive [update] calls. *)
Fixpoint after_updates (fuel : nat) (self : TFLiteHotWordEngine)
    (chunks : list (list byte)) : option TFLiteHotWordEngine :=
  match chunks with
  | [] => Some self
  | chunk :: chunks =>
      match update fuel self chunk with
      | None => None
      | Some (self, _) => after_updates fuel self chunks
      end
  end.

(** The states an instance goes through. *)
Inductive reachable (fresh : TFLiteHotWordEngine) : TFLiteHotWordEngine -> Prop :=
| reach_init : reachable fresh fresh
| reach_update fuel self chunk self' r :
    reachable fresh self ->
    update fuel self chunk = Some (self', r) ->
    reachable fresh self'
| reach_reset self self' :
    reachable fresh self ->
    reset self = Ok self' ->
    reachable fresh self'.

(** The scorer outputs that one pass of the loop hands to the activation
    counter: the output for the full window, unless it is ignored. *)
Definition body_scored (self : TFLiteHotWordEngine) : list float :=
  match insert_features self with
  | (self, Ok true) =>
      let prob := interpreter (_inputs self) in
      if (prob <? 0.0)%float || (1.0 <? prob)%float then [] else [prob]
  | _ => []
  end.

(** Those of the whole loop, in order. *)
Fixpoint scored (fuel : nat) (self : TFLiteHotWordEngine) : list float :=
  if _window_bytes self <=? Z.of_nat (length (_chunk_buffer self)) then
    match fuel with
    | O => []
    | S fuel =>
        body_scored self ++
        match body self with
        | (self, Ok Next) => scored fuel self
        | _ => []
        end
    end
  else [].

(** Those of one [update] call. *)
Definition update_scored (fuel : nat) (self : TFLiteHotWordEngine)
    (chunk : list byte) : list float :=
  let self := set_is_found false self in
  let self := set_chunk_buffer (_chunk_buffer self ++ chunk) self in
  let self := set_probability None self in
  scored fuel self.

(** Those of successive [update] calls. *)
Fixpoint run_scored (fuel : nat) (self : TFLiteHotWordEngine)
    (chunks : list (list byte)) : list float :=
  match chunks with
  | [] => []
  | chunk :: chunks =>
      update_scored fuel self chunk ++
      match update fuel self chunk with
      | Some (self, _) => run_scored fuel self chunks
      | None => []
      end
  end.

End Engine.

(** The activation counter fed one probability after the other: what each
    step gives for [triggered]. *)
Fixpoint feed (np : numpy) (sensitivity : float) (trigger_level chunk_size : Z)
    (activation : Z) (probs : list float) : list (result bool) :=
  match probs with
  | [] => []
  | prob :: probs =>
      let '(activation, r) :=
        decode np sensitivity trigger_level chunk_size activation prob in
      r :: feed np sensitivity trigger_level chunk_size activation probs
  end.

(** The counter after the probabilities. *)
Fixpoint feed_activation (np : numpy) (sensitivity : float)
    (trigger_level chunk_size : Z) (activation : Z) (probs : list float) : Z :=
  match probs with
  | [] => activation
  | prob :: probs =>
      feed_activation np sensitivity trigger_level chunk_size
        (fst (decode np sensitivity trigger_level chunk_size activation prob))
        probs
  end.

(** The window that [_load_model] and [reset] allocate:
    [np.zeros((1, n_features, n_mfcc))]. *)
Definition zeros_of (p : ListenerParams) : result (list frame) :=
  n <- n_features p ;;
  zeros n (n_mfcc p).

(** ** Chunking *)

(** [range(start, stop, step)] as the list of its items; a step of 0 is
    refused with [ValueError]. *)
Definition py_range (start stop step : Z) : result (list Z) :=
  if step =? 0 then Raise ValueError
  else
    let n :=
      if 0 <? step then
        if start <? stop then 1 + (stop - 1 - start) / step else 0
      else
        if stop <? start then 1 + (start - 1 - stop) / (- step) else 0 in
    Ok (map (fun k => start + Z.of_nat k * step) (seq 0 (Z.to_nat n))).

(** [l[lo:hi]] *)
Definition slice {A : Type} (lo hi : Z) (l : list A) : list A :=
  let n := Z.of_nat (length l) in
  let start := slice_bound n lo in
  let stop := slice_bound n hi in
  firstn (Z.to_nat (stop - start)) (skipn (Z.to_nat start) l).

(** The chunks that the generator [chunk_audio] yields, in order.  The
    exception of [range] comes when the first chunk is asked for. *)
Definition chunk_audio {A : Type} (audio : list A) (chunk_size : Z)
    : result (list (list A)) :=
  r <- py_range chunk_size (Z.of_nat (length audio)) chunk_size ;;
  Ok (map (fun i => slice (i - chunk_size) i audio) r).

(** ** Predicates on the states of the engine *)

(** What is fixed at construction. *)
Definition same_settings (s s' : TFLiteHotWordEngine) : Prop :=
  sensitivity s' = sensitivity s /\
  trigger_level s' = trigger_level s /\
  chunk_size s' = chunk_size s /\
  _params s' = _params s /\
  _window_bytes s' = _window_bytes s /\
  _hop_bytes s' = _hop_bytes s.

(** The counter, the trigger flag and the last probability. *)
Definition same_decision (s s' : TFLiteHotWordEngine) : Prop :=
  _activation s' = _activation s /\
  _is_found s' = _is_found s /\
  _probability s' = _probability s.

(** The counter is between the value it is pushed down to and the trigger
    level. *)
Definition activation_in_bounds (s : TFLiteHotWordEngine) : Prop :=
  (- (8 * 2048)) / chunk_size s <= _activation s <= trigger_level s.

(** A scorer output that the engine ignores. *)
Definition out_of_range (prob : float) : bool :=
  (prob <? 0.0)%float || (1.0 <? prob)%float.

(** The last probability, when there is one, is not an ignored output. *)
Definition probability_in_range (s : TFLiteHotWordEngine) : Prop :=
  match _probability s with
  | Some prob => out_of_range prob = false
  | None => True
  end.

(** ** Stand-ins for the collaborators

    An extractor that gives one zero frame for each position of the
    window, as [sonopy] chops the audio, and a model that answers one
    probability whatever the window holds.  They serve to run the engine
    on concrete audio. *)

Definition chop_frames (audio : list Q) (rate : Z) (window_stride : Z * Z)
    (num_filt fft_size num_coeffs : Z) : list frame :=
  let '(w, h) := window_stride in
  let n := Z.of_nat (length audio) in
  if (n <? w) || (h <=? 0) then []
  else repeat (repeat 0%float (Z.to_nat num_coeffs)) (Z.to_nat ((n - w) / h + 1)).

Definition constant_model (prob : float) (inputs : list frame) : float := prob.

(** A chunk of [n] bytes of silence. *)
Definition silence (n : nat) : list byte := repeat x00 n.

(** A fresh instance with a trigger level of 1 that has taken 15 chunks of
    1600 samples of which the model likes each window: the window is full
    and has been scored once. *)
Definition listening_engine : option TFLiteHotWordEngine :=
  match __init__ 0.7 1 2048 with
  | Ok fresh =>
      after_updates numpy2 chop_frames (constant_model 0.95) 2 fresh
        (repeat (silence 3200) 15)
  | Raise _ => None
  end.

(** A fresh instance with a trigger level of 0 and a chunk size of 16384
    that has taken 14 chunks of 1600 samples: the next chunk fills the
    window. *)
Definition eager_engine : option TFLiteHotWordEngine :=
  match __init__ 0.7 0 16384 with
  | Ok fresh =>
      after_updates numpy2 chop_frames (constant_model 0.95) 2 fresh
        (repeat (silence 3200) 14)
  | Raise _ => None
  end.

(** A fresh instance that has taken 14 chunks of 1600 samples, which leave
    one row of the window to fill, at the start of the loop of the next
    [update]. *)
Definition primed_engine : option TFLiteHotWordEngine :=
  match __init__ 0.7 4 2048 with
  | Ok fresh =>
      match
        after_updates numpy2 chop_frames (constant_model 1.5) 1 fresh
          (repeat (silence 3200) 14)
      with
      | Some self =>
          Some (set_chunk_buffer (_chunk_buffer self ++ silence 3200) self)
      | None => None
      end
  | Raise _ => None
  end.

(** * Properties *)

(** ** Audio codec *)

Section CodecFacts.

Lemma byte_val_range (b : byte) : 0 <= byte_val b < 256.
Proof.
  unfold byte_val. pose proof (Byte.to_N_bounded b). lia.
Qed.

Lemma byte_of_Z_val (b : byte) : byte_of_Z (byte_val b) = b.
Proof.
  unfold byte_of_Z. pose proof (byte_val_range b) as R.
  rewrite Z.mod_small by exact R.
  unfold byte_val. rewrite N2Z.id, Byte.of_to_N. reflexivity.
Qed.

Lemma byte_of_Z_mod (z : Z) : byte_of_Z (z mod 256) = byte_of_Z z.
Proof.
  unfold byte_of_Z. rewrite Z.mod_mod by lia. reflexivity.
Qed.

Lemma int16_le_range (lo hi : byte) : -32768 <= int16_le lo hi < 32768.
Proof.
  unfold int16_le.
  pose proof (byte_val_range lo). pose proof (byte_val_range hi).
  destruct (Z.ltb_spec (byte_val lo + 256 * byte_val hi) 32768); lia.
Qed.

Lemma int16_le_unsigned (lo hi : byte) :
  int16_le lo hi mod 65536 = byte_val lo + 256 * byte_val hi.
Proof.
  unfold int16_le.
  pose proof (byte_val_range lo). pose proof (byte_val_range hi).
  destruct (Z.ltb_spec (byte_val lo + 256 * byte_val hi) 32768).
  - apply Z.mod_small. lia.
  - symmetry. apply (Z.mod_unique _ _ (-1)); lia.
Qed.

Lemma tobytes_int16_le (lo hi : byte) : tobytes_i2 (int16_le lo hi) = [lo; hi].
Proof.
  unfold tobytes_i2.
  pose proof (byte_val_range lo) as Rl. pose proof (byte_val_range hi) as Rh.
  pose proof (int16_le_unsigned lo hi) as U.
  pose proof (Z.div_mod (int16_le lo hi) 65536 ltac:(lia)) as D.
  rewrite U in D.
  set (k := int16_le lo hi / 65536) in D.
  assert (L : int16_le lo hi mod 256 = byte_val lo).
  { symmetry. apply (Z.mod_unique _ _ (256 * k + byte_val hi)); lia. }
  assert (H : (int16_le lo hi / 256) mod 256 = byte_val hi).
  { assert (E : int16_le lo hi / 256 = 256 * k + byte_val hi).
    { symmetry. apply (Z.div_unique _ _ _ (byte_val lo)); lia. }
    rewrite E. symmetry. apply (Z.mod_unique _ _ k); lia. }
  rewrite <- (byte_of_Z_mod (int16_le lo hi)), L, byte_of_Z_val.
  rewrite <- (byte_of_Z_mod (int16_le lo hi / 256)), H, byte_of_Z_val.
  reflexivity.
Qed.

Lemma wrap_int16_small (z : Z) : -32768 <= z < 32768 -> wrap_int16 z = z.
Proof.
  intros R. unfold wrap_int16. rewrite Z.mod_small; lia.
Qed.

Lemma wrap_int16_range (z : Z) : -32768 <= wrap_int16 z < 32768.
Proof.
  unfold wrap_int16. pose proof (Z.mod_pos_bound (z + 32768) 65536). lia.
Qed.

Lemma wrap_int16_congr (z : Z) : wrap_int16 z mod 65536 = z mod 65536.
Proof.
  unfold wrap_int16.
  pose proof (Z.div_mod (z + 32768) 65536 ltac:(lia)) as D.
  replace ((z + 32768) mod 65536 - 32768)
    with (z + (- ((z + 32768) / 65536)) * 65536) by lia.
  apply Z.mod_add. lia.
Qed.

(** A value that fits 16 bits is converted to itself. *)
Lemma astype_i2_fits (x : Q) :
  -32768 <= Qtrunc x < 32768 -> astype_i2 x = Qtrunc x.
Proof.
  intros R. unfold astype_i2.
  destruct (Z.leb_spec (- 2 ^ 31) (Qtrunc x)); [| lia].
  destruct (Z.ltb_spec (Qtrunc x) (2 ^ 31)); [| lia].
  apply wrap_int16_small, R.
Qed.

Lemma astype_i2_range (x : Q) : -32768 <= astype_i2 x < 32768.
Proof.
  unfold astype_i2.
  destruct ((- 2 ^ 31 <=? Qtrunc x) && (Qtrunc x <? 2 ^ 31));
    [apply wrap_int16_range | lia].
Qed.

(** Scaling a decoded sample back gives the integer it came from. *)
Lemma sample_int16_decoded (z : Z) :
  -32768 <= z < 32768 -> sample_int16 (Qmake z (Z.to_pos MAX_WAV_VALUE)) = z.
Proof.
  intros R. unfold sample_int16.
  assert (T : Qtrunc (Qmake z (Z.to_pos MAX_WAV_VALUE) * inject_Z MAX_WAV_VALUE) = z).
  { unfold Qtrunc. cbn [Qnum Qden Qmult inject_Z MAX_WAV_VALUE Z.to_pos].
    replace (Z.pos (32768 * 1)) with 32768 by reflexivity.
    apply Z.quot_mul. lia. }
  rewrite astype_i2_fits; rewrite T; [reflexivity | exact R].
Qed.

Lemma Qtrunc_bounds (x : Q) :
  (0 <= Qnum x ->
   Z.pos (Qden x) * Qtrunc x <= Qnum x < Z.pos (Qden x) * Qtrunc x + Z.pos (Qden x)) /\
  (Qnum x <= 0 ->
   Z.pos (Qden x) * Qtrunc x - Z.pos (Qden x) < Qnum x <= Z.pos (Qden x) * Qtrunc x).
Proof.
  unfold Qtrunc. set (n := Qnum x). set (d := Z.pos (Qden x)).
  assert (Hd : 0 < d) by (unfold d; lia).
  pose proof (Z.quot_rem' n d) as E.
  split; intros Hn.
  - pose proof (Z.rem_bound_pos n d Hn Hd). lia.
  - pose proof (Z.rem_bound_pos_neg n d Hd Hn). lia.
Qed.

Lemma cross_le_lt (dx dy nx ny a b : Z) :
  0 < dx -> 0 < dy -> dx * a <= nx -> ny < dy * b -> nx * dy <= ny * dx ->
  a < b.
Proof.
  intros Hx Hy A B L.
  apply (Z.mul_lt_mono_pos_l (dx * dy)); [lia |].
  apply Z.le_lt_trans with (ny * dx).
  - apply Z.le_trans with (nx * dy); [| exact L].
    replace (dx * dy * a) with (dx * a * dy) by ring.
    apply Z.mul_le_mono_nonneg_r; lia.
  - replace (dx * dy * b) with (dy * b * dx) by ring.
    apply Z.mul_lt_mono_pos_r; lia.
Qed.

Lemma cross_lt_le (dx dy nx ny a b : Z) :
  0 < dx -> 0 < dy -> dx * a < nx -> ny <= dy * b -> nx * dy <= ny * dx ->
  a < b.
Proof.
  intros Hx Hy A B L.
  apply (Z.mul_lt_mono_pos_l (dx * dy)); [lia |].
  apply Z.lt_le_trans with (ny * dx).
  - apply Z.lt_le_trans with (nx * dy); [| exact L].
    replace (dx * dy * a) with (dx * a * dy) by ring.
    apply Z.mul_lt_mono_pos_r; lia.
  - replace (dx * dy * b) with (dy * b * dx) by ring.
    apply Z.mul_le_mono_nonneg_r; lia.
Qed.

(** Dropping the fraction keeps the order. *)
Lemma Qtrunc_le (x y : Q) : (x <= y)%Q -> Qtrunc x <= Qtrunc y.
Proof.
  unfold Qle. intros L.
  pose proof (Qtrunc_bounds x) as [Px Nx]. pose proof (Qtrunc_bounds y) as [Py Ny].
  set (dx := Z.pos (Qden x)) in *. set (dy := Z.pos (Qden y)) in *.
  assert (Hdx : 0 < dx) by (unfold dx; lia).
  assert (Hdy : 0 < dy) by (unfold dy; lia).
  destruct (Z.le_gt_cases 0 (Qnum x)) as [Hx | Hx];
    destruct (Z.le_gt_cases 0 (Qnum y)) as [Hy | Hy].
  - specialize (Px Hx). specialize (Py Hy).
    enough (Qtrunc x < Qtrunc y + 1) by lia.
    apply (cross_le_lt dx dy (Qnum x) (Qnum y)); lia.
  - exfalso.
    assert (0 <= Qnum x * dy) by (apply Z.mul_nonneg_nonneg; lia).
    assert (Qnum y * dx < 0) by (apply Z.mul_neg_pos; lia).
    lia.
  - specialize (Nx ltac:(lia)). specialize (Py Hy).
    assert (Qtrunc x - 1 < 0) by nia.
    assert (0 < Qtrunc y + 1) by nia.
    lia.
  - specialize (Nx ltac:(lia)). specialize (Ny ltac:(lia)).
    enough (Qtrunc x - 1 < Qtrunc y) by lia.
    apply (cross_lt_le dx dy (Qnum x) (Qnum y)); lia.
Qed.

Lemma Qtrunc_inject_Z (z : Z) : Qtrunc (inject_Z z) = z.
Proof.
  unfold Qtrunc. simpl. apply Z.quot_1_r.
Qed.

Lemma scaled_num (x : Q) :
  Qnum (x * inject_Z MAX_WAV_VALUE) = Qnum x * 32768.
Proof. reflexivity. Qed.

Lemma scaled_den (x : Q) :
  Z.pos (Qden (x * inject_Z MAX_WAV_VALUE)) = Z.pos (Qden x).
Proof.
  unfold Qmult, inject_Z. cbn [Qden]. rewrite Pos.mul_1_r. reflexivity.
Qed.

(** A sample of [[-1, 1)] scales to a value that fits 16 bits. *)
Lemma scaled_fits (x : Q) :
  (-1 <= x)%Q -> (x < 1)%Q ->
  -32768 <= Qtrunc (x * inject_Z MAX_WAV_VALUE) < 32768.
Proof.
  intros L U. split.
  - change (-32768) with (Qtrunc (-1 * inject_Z MAX_WAV_VALUE)).
    apply Qtrunc_le. apply Qmult_le_compat_r; [exact L | discriminate].
  - pose proof (Qtrunc_bounds (x * inject_Z MAX_WAV_VALUE)) as [P N].
    rewrite scaled_num, scaled_den in P, N.
    unfold Qlt in U. cbn [Qnum Qden] in U.
    set (d := Z.pos (Qden x)) in *.
    set (t := Qtrunc (x * inject_Z MAX_WAV_VALUE)) in *.
    assert (Hd : 0 < d) by (unfold d; lia).
    destruct (Z.le_gt_cases 0 (Qnum x)) as [H | H].
    + specialize (P ltac:(lia)).
      enough (d * t < d * 32768) by (apply (Z.mul_lt_mono_pos_l d); assumption).
      lia.
    + specialize (N ltac:(lia)).
      enough (E : d * t < d * 1) by (apply (Z.mul_lt_mono_pos_l d) in E; lia).
      lia.
Qed.

Lemma i2_items_length (n : nat) (b : list byte) :
  length b = (2 * n)%nat -> length (i2_items b) = n.
Proof.
  revert b. induction n as [| n IH]; intros b H.
  - destruct b; [reflexivity | discriminate].
  - destruct b as [| lo [| hi rest]]; try (simpl in H; lia).
    simpl. f_equal. apply IH. simpl in H. lia.
Qed.

Lemma i2_items_nth (n : nat) (b : list byte) (k : nat) :
  length b = (2 * n)%nat -> (k < n)%nat ->
  nth k (i2_items b) 0 = int16_le (nth (2 * k) b x00) (nth (2 * k + 1) b x00).
Proof.
  revert b k. induction n as [| n IH]; intros b k H K; [lia |].
  destruct b as [| lo [| hi rest]]; try (simpl in H; lia).
  destruct k as [| k].
  - reflexivity.
  - replace (2 * S k)%nat with (S (S (2 * k))) by lia.
    cbn [i2_items nth Nat.add]. apply IH; simpl in H; lia.
Qed.

Lemma encode_i2_items (n : nat) (b : list byte) :
  length b = (2 * n)%nat ->
  audio_to_buffer (map (fun i => Qmake i (Z.to_pos MAX_WAV_VALUE)) (i2_items b)) = b.
Proof.
  revert b. induction n as [| n IH]; intros b H.
  - destruct b; [reflexivity | discriminate].
  - destruct b as [| lo [| hi rest]]; try (simpl in H; lia).
    cbn [i2_items map audio_to_buffer flat_map].
    rewrite sample_int16_decoded by apply int16_le_range.
    rewrite tobytes_int16_le. cbn [app]. f_equal. f_equal.
    apply IH. simpl in H. lia.
Qed.

Lemma even_length (b : list byte) :
  Z.of_nat (length b) mod 2 = 0 -> length b = (2 * (length b / 2))%nat.
Proof.
  intros H.
  pose proof (Nat.div_mod_eq (length b) 2) as D.
  assert (M : (length b mod 2 = 0)%nat).
  { apply Nat2Z.inj. rewrite Nat2Z.inj_mod. exact H. }
  lia.
Qed.

End CodecFacts.

(** C7: a buffer of odd length is refused with numpy's [ValueError] (the
    invalid audio length condition) and nothing is decoded; a buffer of
    even length gives exactly half as many samples as it has bytes, and
    sample [k] is the signed 16-bit little-endian integer of bytes [2k] and
    [2k+1] divided by 32768. *)
Theorem buffer_to_audio_decodes (b : list byte) :
  (Z.of_nat (length b) mod 2 <> 0 -> buffer_to_audio b = Raise ValueError) /\
  (Z.of_nat (length b) mod 2 = 0 ->
   exists audio,
     buffer_to_audio b = Ok audio /\
     length audio = (length b / 2)%nat /\
     forall k, (k < length b / 2)%nat ->
       exists z,
         -32768 <= z < 32768 /\
         z mod 65536 =
           byte_val (nth (2 * k) b x00) + 256 * byte_val (nth (2 * k + 1) b x00) /\
         nth k audio 0%Q = Qmake z 32768 /\
         (nth k audio 0 == inject_Z z / inject_Z 32768)%Q).
Proof.
  unfold buffer_to_audio, frombuffer_i2. split; intros H.
  - apply Z.eqb_neq in H. rewrite H. reflexivity.
  - pose proof (even_length b H) as L.
    apply Z.eqb_eq in H. rewrite H. cbn [bind].
    eexists. split; [reflexivity |]. split.
    + rewrite length_map. apply (i2_items_length _ _ L).
    + intros k K.
      exists (int16_le (nth (2 * k) b x00) (nth (2 * k + 1) b x00)).
      split; [apply int16_le_range |].
      split; [apply int16_le_unsigned |].
      assert (E : nth k (map (fun i => Qmake i (Z.to_pos MAX_WAV_VALUE)) (i2_items b)) 0%Q
                  = Qmake (int16_le (nth (2 * k) b x00) (nth (2 * k + 1) b x00)) 32768).
      { rewrite (nth_indep _ 0%Q (Qmake 0 (Z.to_pos MAX_WAV_VALUE)))
          by (rewrite length_map, (i2_items_length _ _ L); exact K).
        rewrite (map_nth (fun i => Qmake i (Z.to_pos MAX_WAV_VALUE))).
        rewrite (i2_items_nth _ _ _ L K). reflexivity. }
      split; [exact E |].
      rewrite E. unfold Qeq, Qdiv, Qmult, Qinv, inject_Z. cbn. lia.
Qed.

Lemma buffer_to_audio_decodes_witness :
  buffer_to_audio [x01; x02; x03] = Raise ValueError /\
  exists audio,
    buffer_to_audio [x00; x80; xff; x7f] = Ok audio /\ length audio = 2%nat.
Proof.
  split.
  - apply (proj1 (buffer_to_audio_decodes [x01; x02; x03])). discriminate.
  - destruct (proj2 (buffer_to_audio_decodes [x00; x80; xff; x7f]) eq_refl)
      as [audio [E [L _]]].
    exists audio. split; [exact E | exact L].
Defined.

(** C8: decoding a buffer of even length and encoding the samples gives
    the buffer back, byte for byte, and doing it once more changes
    nothing. *)
Theorem round_trip_exact (b : list byte) :
  Z.of_nat (length b) mod 2 = 0 ->
  round_trip b = Ok b /\
  (r <- round_trip b ;; round_trip r) = round_trip b.
Proof.
  intros H.
  assert (R : round_trip b = Ok b).
  { unfold round_trip, buffer_to_audio, frombuffer_i2.
    pose proof (even_length b H) as L.
    apply Z.eqb_eq in H. rewrite H. cbn [bind].
    f_equal. apply (encode_i2_items _ _ L). }
  split; [exact R |].
  rewrite R. cbn [bind]. exact R.
Qed.

Lemma round_trip_exact_witness :
  round_trip [x00; x80; xff; x7f; x34; x12] = Ok [x00; x80; xff; x7f; x34; x12].
Proof.
  apply (proj1 (round_trip_exact [x00; x80; xff; x7f; x34; x12] eq_refl)).
Defined.

(** C9, as the specification states it, fails: the encoder is not
    monotonic over all samples and does not saturate.  The sample 1.0
    scales to 32768, of which the cast keeps the low 16 bits, -32768: less
    than what 0.5 encodes to, and not the largest 16-bit value. *)
Lemma encoder_wraps_at_one :
  ~ (forall x y : Q, (x <= y)%Q -> sample_int16 x <= sample_int16 y) /\
  ~ (forall x : Q, (1 <= x)%Q -> sample_int16 x = 32767) /\
  audio_to_buffer [1%Q] = [x00; x80].
Proof.
  split; [| split].
  - intros M. specialize (M (1 # 2)%Q 1%Q ltac:(discriminate)).
    vm_compute in M. apply M. reflexivity.
  - intros S. specialize (S 1%Q ltac:(discriminate)). discriminate S.
  - reflexivity.
Qed.

(** C9, amended: on samples of [[-1.0, 1.0)] the encoder is monotonic, and
    the encoded integer is the sample times 32768 with its fraction
    dropped, within the 16-bit range; outside that range it does not
    saturate: the sample 1.0 is written as -32768. *)
Theorem encoder_monotone_in_range :
  (forall x y : Q,
     (-1 <= x)%Q -> (x <= y)%Q -> (y < 1)%Q ->
     sample_int16 x = Qtrunc (x * inject_Z MAX_WAV_VALUE) /\
     sample_int16 y = Qtrunc (y * inject_Z MAX_WAV_VALUE) /\
     -32768 <= sample_int16 x /\
     sample_int16 x <= sample_int16 y /\
     sample_int16 y < 32768) /\
  sample_int16 1 = -32768 /\
  audio_to_buffer [1%Q] = [x00; x80].
Proof.
  split; [| split; reflexivity].
  intros x y Lx Lxy Uy.
  assert (Ux : (x < 1)%Q) by (eapply Qle_lt_trans; eassumption).
  assert (Ly : (-1 <= y)%Q) by (eapply Qle_trans; eassumption).
  pose proof (scaled_fits x Lx Ux) as Fx. pose proof (scaled_fits y Ly Uy) as Fy.
  assert (Ex : sample_int16 x = Qtrunc (x * inject_Z MAX_WAV_VALUE))
    by (apply astype_i2_fits, Fx).
  assert (Ey : sample_int16 y = Qtrunc (y * inject_Z MAX_WAV_VALUE))
    by (apply astype_i2_fits, Fy).
  split; [exact Ex |]. split; [exact Ey |].
  rewrite Ex, Ey. split; [lia |]. split; [| lia].
  apply Qtrunc_le. apply Qmult_le_compat_r; [exact Lxy | discriminate].
Qed.

Lemma encoder_monotone_in_range_witness :
  sample_int16 (-1 # 3) <= sample_int16 (1 # 2).
Proof.
  apply (proj1 encoder_monotone_in_range (-1 # 3)%Q (1 # 2)%Q);
    [discriminate | discriminate | reflexivity].
Defined.

(** ** Listener parameters *)

(** C6: with a sample rate of 16000, a buffer of 1.5 s, a window of 0.1 s
    and a hop of 0.05 s, the window is 1600 samples, the hop 800, the
    buffer a multiple of 800 that is at most 24000, and the number of
    timesteps one more than the whole hops that fit after the first
    window.  Whatever the parameters, when the hop is positive the buffer
    is a multiple of it; [buffer_samples] raises only what converting the
    buffer time raises. *)
Theorem geometry_invariants :
  (forall p : ListenerParams,
     sample_rate p = 16000 -> buffer_t p = 1.5%float ->
     window_t p = 0.1%float -> hop_t p = 0.05%float ->
     window_samples p = Ok 1600 /\
     hop_samples p = Ok 800 /\
     exists b,
       buffer_samples p = Ok b /\ (800 | b) /\ b <= 24000 /\
       n_features p = Ok (1 + (b - 1600) / 800)) /\
  (forall (p : ListenerParams) (h : Z),
     hop_samples p = Ok h -> 0 < h ->
     match buffer_samples p with
     | Ok b => (h | b)
     | Raise e => to_samples (sample_rate p) (buffer_t p) = Raise e
     end).
Proof.
  split.
  - intros [bt wt ht sr sd nfft nfilt nmfcc ud vec tc tce]. cbn.
    intros -> -> -> ->.
    split; [vm_compute; reflexivity |].
    split; [vm_compute; reflexivity |].
    exists 24000.
    split; [vm_compute; reflexivity |].
    split; [exists 30; reflexivity |].
    split; [lia |].
    vm_compute. reflexivity.
  - intros p h H Hpos. unfold buffer_samples. rewrite H.
    destruct (to_samples (sample_rate p) (buffer_t p)) as [s | e]; cbn [bind].
    + unfold floordiv. destruct (Z.eqb_spec h 0) as [-> | _]; [lia |].
      cbn [bind]. exists (s / h). ring.
    + reflexivity.
Qed.

Lemma geometry_invariants_witness :
  window_samples default_params = Ok 1600 /\
  match buffer_samples default_params with
  | Ok b => (800 | b)
  | Raise e => to_samples (sample_rate default_params) (buffer_t default_params) = Raise e
  end.
Proof.
  split.
  - apply (proj1 geometry_invariants default_params); reflexivity.
  - apply (proj2 geometry_invariants default_params 800); [reflexivity | lia].
Defined.

(** ** The activation counter *)

(** Case analysis on the tests of [decode]. *)
Ltac decode_cases :=
  unfold decode, floordiv;
  repeat match goal with
    | |- context [activated ?n ?s ?p] => destruct (activated n s p)
    | |- context [Z.ltb ?x ?y] => destruct (Z.ltb_spec x y)
    | |- context [Z.eqb ?x ?y] => destruct (Z.eqb_spec x y)
    end;
  cbn [orb andb fst snd].

Section ActivationFacts.

Variable np : numpy.
Variable sens : float.
Variables tl cs : Z.

(** The value the counter is pushed down to. *)
Let pushed : Z := - (8 * 2048) / cs.

Lemma pushed_negative : 1 <= cs -> pushed < 0.
Proof.
  intros H. unfold pushed. apply Z.div_lt_upper_bound; lia.
Qed.

Lemma pushed_ceiling : 1 <= cs -> pushed = - ((16384 + cs - 1) / cs).
Proof.
  intros H. unfold pushed.
  pose proof (Z.div_mod (- (8 * 2048)) cs ltac:(lia)) as D.
  pose proof (Z.mod_pos_bound (- (8 * 2048)) cs ltac:(lia)) as B.
  set (q := - (8 * 2048) / cs) in *. set (r := (- (8 * 2048)) mod cs) in *.
  enough (E : (16384 + cs - 1) / cs = - q) by lia.
  symmetry. apply (Z.div_unique _ _ _ (cs - 1 - r)); lia.
Qed.

Lemma pushed_below_floor : 1 <= cs -> pushed <= - (16384 / cs).
Proof.
  intros H. rewrite pushed_ceiling by exact H.
  enough (16384 / cs <= (16384 + cs - 1) / cs) by lia.
  apply Z.div_le_mono; lia.
Qed.

Lemma pushed_exact : 1 <= cs -> (cs | 16384) -> pushed = - (16384 / cs).
Proof.
  intros H [k K]. unfold pushed.
  replace (- (8 * 2048)) with (- k * cs) by lia.
  rewrite K, !Z.div_mul by lia. reflexivity.
Qed.

(** A step that triggers leaves the counter pushed down. *)
Lemma decode_triggered (a : Z) (p : float) :
  cs <> 0 -> snd (decode np sens tl cs a p) = Ok true ->
  fst (decode np sens tl cs a p) = pushed /\ tl < a + 1.
Proof.
  intros C. unfold pushed. decode_cases;
    intros T; try discriminate T; try lia; split; (reflexivity || lia).
Qed.

(** An activated probability that leaves the incremented counter
    negative pushes it down again. *)
Lemma decode_activated_negative (a : Z) (p : float) :
  cs <> 0 -> activated np sens p = true -> a + 1 < 0 ->
  fst (decode np sens tl cs a p) = pushed.
Proof.
  intros C A N. unfold pushed, decode. rewrite A.
  decode_cases; (reflexivity || lia).
Qed.

(** While the counter is between 0 and the trigger level, an activated
    probability adds one to it, and triggers when that passes the
    level. *)
Lemma decode_activated_rising (a : Z) (p : float) :
  cs <> 0 -> activated np sens p = true -> 0 <= a ->
  decode np sens tl cs a p =
    if tl <? a + 1 then (pushed, Ok true) else (a + 1, Ok false).
Proof.
  intros C A N. unfold pushed.
  unfold decode, floordiv. rewrite A. cbn [orb andb].
  destruct (Z.ltb_spec tl (a + 1)); cbn [orb].
  - destruct (Z.eqb_spec cs 0); [contradiction | reflexivity].
  - destruct (Z.ltb_spec (a + 1) 0); [lia | reflexivity].
Qed.

(** With a non-zero chunk size no step raises. *)
Lemma decode_ok (a : Z) (p : float) :
  cs <> 0 -> exists t, snd (decode np sens tl cs a p) = Ok t.
Proof.
  intros C. decode_cases; try contradiction; eexists; reflexivity.
Qed.

(** The counter stays between the pushed-down value and the trigger
    level. *)
Lemma decode_invariant (a : Z) (p : float) :
  1 <= cs -> 0 <= tl ->
  pushed <= a <= tl ->
  pushed <= fst (decode np sens tl cs a p) <= tl.
Proof.
  intros C T I. pose proof (pushed_negative C) as N. unfold pushed in *.
  decode_cases; lia.
Qed.

(** A step adds at most one to a bound of the counter that is not
    below the pushed-down value. *)
Lemma decode_bound (a b : Z) (p : float) :
  a <= b -> pushed <= b -> fst (decode np sens tl cs a p) <= b + 1.
Proof.
  intros A B. unfold pushed in *. decode_cases; lia.
Qed.

Lemma decode_quiet (a : Z) (p : float) :
  a < tl -> snd (decode np sens tl cs a p) <> Ok true.
Proof.
  intros A. decode_cases; (discriminate || lia).
Qed.

(** No trigger while a bound of the counter is below the trigger
    level. *)
Lemma feed_quiet (ps : list float) :
  forall (a b : Z) (k : nat),
    a <= b -> pushed <= b -> b + Z.of_nat k < tl ->
    nth_error (feed np sens tl cs a ps) k <> Some (Ok true).
Proof.
  induction ps as [| p ps IH]; intros a b k A B K.
  - destruct k; discriminate.
  - cbn [feed].
    destruct (decode np sens tl cs a p) as [a' r] eqn:D.
    destruct k as [| k]; cbn [nth_error].
    + intros E. injection E as E.
      apply (decode_quiet a p ltac:(lia)). rewrite D. exact E.
    + apply (IH a' (b + 1)); [| lia | lia].
      pose proof (decode_bound a b p A B) as Bd. rewrite D in Bd. exact Bd.
Qed.

Lemma feed_split (n : nat) :
  forall (ps : list float) (a : Z) (k : nat),
    nth_error (feed np sens tl cs a ps) (n + k) =
    nth_error
      (feed np sens tl cs (feed_activation np sens tl cs a (firstn n ps)) (skipn n ps)) k.
Proof.
  induction n as [| n IH]; intros ps a k.
  - reflexivity.
  - destruct ps as [| p ps].
    + destruct k; reflexivity.
    + cbn [feed feed_activation firstn skipn Nat.add].
      destruct (decode np sens tl cs a p) as [a' r] eqn:D. cbn [nth_error fst].
      apply IH.
Qed.

(** After the step that triggers, the counter is pushed down. *)
Lemma feed_triggered_state (i : nat) :
  forall (ps : list float) (a : Z),
    cs <> 0 ->
    nth_error (feed np sens tl cs a ps) i = Some (Ok true) ->
    feed_activation np sens tl cs a (firstn (S i) ps) = pushed /\
    tl < feed_activation np sens tl cs a (firstn i ps) + 1.
Proof.
  induction i as [| i IH]; intros ps a C E.
  - destruct ps as [| p ps]; [discriminate |].
    cbn [feed] in E. cbn [firstn feed_activation].
    destruct (decode np sens tl cs a p) as [a' r] eqn:D.
    injection E as E.
    pose proof (decode_triggered a p C) as T. rewrite D in T.
    apply T. exact E.
  - destruct ps as [| p ps]; [discriminate |].
    cbn [feed] in E.
    destruct (decode np sens tl cs a p) as [a' r] eqn:D. cbn [nth_error] in E.
    change (firstn (S (S i)) (p :: ps)) with (p :: firstn (S i) ps).
    change (firstn (S i) (p :: ps)) with (p :: firstn i ps).
    cbn [feed_activation]. rewrite D. cbn [fst].
    apply IH; assumption.
Qed.

(** Two triggers are more than the cooldown apart. *)
Lemma feed_gap (ps : list float) (a : Z) (i j : nat) :
  1 <= cs ->
  nth_error (feed np sens tl cs a ps) i = Some (Ok true) ->
  nth_error (feed np sens tl cs a ps) j = Some (Ok true) ->
  (i < j)%nat ->
  tl + 1 - pushed <= Z.of_nat j - Z.of_nat i.
Proof.
  intros C Ei Ej L.
  destruct (feed_triggered_state i ps a ltac:(lia) Ei) as [St _].
  replace j with (S i + (j - S i))%nat in Ej by lia.
  rewrite feed_split, St in Ej.
  destruct (Z_lt_le_dec (pushed + Z.of_nat (j - S i)) tl) as [Lt | Ge]; [| lia].
  exfalso. revert Ej.
  apply (feed_quiet _ pushed pushed); lia.
Qed.

(** From 0, activated probabilities trigger at the one that takes the
    counter past the trigger level, and not before. *)
Lemma feed_rising (m : nat) :
  forall (ps : list float) (a : Z),
    cs <> 0 -> 0 <= a -> Z.of_nat m = tl - a ->
    Forall (fun p => activated np sens p = true) ps ->
    (m < length ps)%nat ->
    firstn (S m) (feed np sens tl cs a ps) = repeat (Ok false) m ++ [Ok true].
Proof.
  induction m as [| m IH]; intros ps a C A M F L.
  - destruct ps as [| p ps]; [cbn in L; lia |].
    inversion F as [| ? ? Fp Fps]; subst.
    cbn [feed]. rewrite (decode_activated_rising a p C Fp A).
    destruct (Z.ltb_spec tl (a + 1)); [| lia].
    cbn [firstn repeat app]. reflexivity.
  - destruct ps as [| p ps]; [cbn in L; lia |].
    inversion F as [| ? ? Fp Fps]; subst.
    cbn [feed]. rewrite (decode_activated_rising a p C Fp A).
    destruct (Z.ltb_spec tl (a + 1)); [lia |].
    change (firstn (S (S m)) (Ok false :: feed np sens tl cs (a + 1) ps))
      with (Ok false :: firstn (S m) (feed np sens tl cs (a + 1) ps)).
    rewrite (IH ps (a + 1)); [reflexivity | exact C | lia | lia | exact Fps |].
    cbn in L. lia.
Qed.

End ActivationFacts.

(** C1, as the specification states it, fails where NumPy compares in
    float32 (version 2 on).  With a sensitivity of 0.7 the threshold
    [1.0 - 0.7] is 0.30000000000000004, which rounds to the float32 number
    0.30000001192092896; a probability of that very value is above
    [1 - sensitivity] and yet not counted, so that five of them leave the
    counter at 0 and nothing triggers.  And with a chunk size of 0 the
    step that would trigger raises [ZeroDivisionError]. *)
Lemma rounded_threshold_does_not_trigger :
  ~ (forall (np : numpy) (sens : float) (tl cs : Z) (ps : list float),
       0 <= tl ->
       Forall (fun p => (1.0 - sens <? p)%float = true) ps ->
       (Z.to_nat tl < length ps)%nat ->
       nth_error (feed np sens tl cs 0 ps) (Z.to_nat tl) = Some (Ok true)) /\
  feed numpy2 0.7 4 2048 0 (repeat 0.30000001192092896%float 5) =
    repeat (Ok false) 5 /\
  nth_error (feed numpy1 0.7 4 0 0 (repeat 0.95%float 5)) 4 =
    Some (Raise ZeroDivisionError).
Proof.
  split; [| split; vm_compute; reflexivity].
  intros H.
  specialize (H numpy2 0.7%float 4 2048 (repeat 0.30000001192092896%float 5)
                ltac:(lia)).
  assert (F : Forall (fun p => (1.0 - 0.7 <? p)%float = true)
                (repeat 0.30000001192092896%float 5))
    by (repeat constructor).
  specialize (H F ltac:(cbn; lia)).
  vm_compute in H. discriminate H.
Qed.

(** C1, amended: from a counter of 0, with a trigger level that is not
    negative and a chunk size that is not 0, a run of probabilities that
    the test [prob > 1.0 - self.sensitivity] of the code accepts, as the
    installed NumPy evaluates it, triggers at probability number
    [trigger_level + 1] and at none before it. *)
Theorem trigger_after_level_plus_one
    (np : numpy) (sens : float) (tl cs : Z) (ps : list float) :
  0 <= tl -> cs <> 0 ->
  Forall (fun p => activated np sens p = true) ps ->
  (Z.to_nat tl < length ps)%nat ->
  firstn (S (Z.to_nat tl)) (feed np sens tl cs 0 ps) =
    repeat (Ok false) (Z.to_nat tl) ++ [Ok true].
Proof.
  intros T C F L.
  apply feed_rising; [exact C | lia | lia | exact F | exact L].
Qed.

Lemma trigger_after_level_plus_one_witness :
  firstn 5 (feed numpy2 0.7 4 2048 0 (repeat 0.95%float 7)) =
    [Ok false; Ok false; Ok false; Ok false; Ok true] /\
  firstn 5 (feed numpy1 0.7 4 2048 0 (repeat 0.30000001192092896%float 7)) =
    [Ok false; Ok false; Ok false; Ok false; Ok true].
Proof.
  split.
  - apply (trigger_after_level_plus_one numpy2 0.7 4 2048 (repeat 0.95%float 7));
      [lia | lia | repeat constructor | cbn; lia].
  - apply (trigger_after_level_plus_one numpy1 0.7 4 2048
             (repeat 0.30000001192092896%float 7));
      [lia | lia | repeat constructor | cbn; lia].
Defined.

(** C2, as the specification states it, fails: with a chunk size of 3 the
    step that triggers leaves the counter at -5462, the floor of -16384/3,
    and not at -5461, minus the floor of 16384/3. *)
Lemma pushed_value_is_not_negated_floor :
  ~ (forall (np : numpy) (sens : float) (tl cs a : Z) (p : float),
       0 < cs ->
       snd (decode np sens tl cs a p) = Ok true \/
         (activated np sens p = true /\ a + 1 < 0) ->
       fst (decode np sens tl cs a p) = - (8 * 2048 / cs)).
Proof.
  intros H.
  specialize (H numpy2 0.7%float 4 3 4 0.95%float ltac:(lia) (or_introl eq_refl)).
  vm_compute in H. discriminate H.
Qed.

(** C2, amended: for a positive chunk size, a step that triggers, or that
    sees a probability that the test [prob > 1.0 - self.sensitivity] of
    the code accepts while the incremented counter is negative, sets the
    counter to the floor of [-(8 * 2048) / chunk_size], which is minus the
    ceiling of [16384 / chunk_size], and is minus the floor of
    [8 * 2048 / chunk_size] when the chunk size divides 16384. *)
Theorem pushed_value
    (np : numpy) (sens : float) (tl cs a : Z) (p : float) :
  0 < cs ->
  snd (decode np sens tl cs a p) = Ok true \/
    (activated np sens p = true /\ a + 1 < 0) ->
  fst (decode np sens tl cs a p) = (- (8 * 2048)) / cs /\
  (- (8 * 2048)) / cs = - ((8 * 2048 + cs - 1) / cs) /\
  ((cs | 8 * 2048) -> fst (decode np sens tl cs a p) = - (8 * 2048 / cs)).
Proof.
  intros C H.
  assert (E : fst (decode np sens tl cs a p) = (- (8 * 2048)) / cs).
  { destruct H as [T | [A N]].
    - apply decode_triggered; [lia | exact T].
    - apply decode_activated_negative; [lia | exact A | exact N]. }
  split; [exact E |]. split.
  - apply pushed_ceiling. lia.
  - intros D. rewrite E. apply pushed_exact; [lia | exact D].
Qed.

Lemma pushed_value_witness :
  fst (decode numpy2 0.7 4 3 4 0.95) = -5462 /\
  fst (decode numpy2 0.7 4 2048 (-5) 0.95) = -8 /\
  fst (decode numpy1 0.7 4 2048 (-5) 0.30000001192092896) = -8.
Proof.
  split; [| split].
  - refine (proj1 (pushed_value numpy2 0.7 4 3 4 0.95 _ _)); [lia | left; reflexivity].
  - refine (proj1 (pushed_value numpy2 0.7 4 2048 (-5) 0.95 _ _));
      [lia | right; split; [reflexivity | lia]].
  - refine (proj1 (pushed_value numpy1 0.7 4 2048 (-5) 0.30000001192092896 _ _));
      [lia | right; split; [reflexivity | lia]].
Defined.

(** ** The engine *)

Section EngineFacts.

Variable np : numpy.
Variable mfcc_spec : list Q -> Z -> Z * Z -> Z -> Z -> Z -> list frame.
Variable interpreter : list frame -> float.

Lemma same_settings_refl (s : TFLiteHotWordEngine) : same_settings s s.
Proof. repeat split. Qed.

Lemma same_settings_trans (s1 s2 s3 : TFLiteHotWordEngine) :
  same_settings s1 s2 -> same_settings s2 s3 -> same_settings s1 s3.
Proof.
  unfold same_settings. intros H1 H2.
  decompose [and] H1. decompose [and] H2. repeat split; congruence.
Qed.

Lemma same_decision_refl (s : TFLiteHotWordEngine) : same_decision s s.
Proof. repeat split. Qed.

(** Putting the features in the window touches neither the settings nor
    the counter, the flag and the probability. *)
Lemma insert_features_keeps (self : TFLiteHotWordEngine) :
  same_settings self (fst (insert_features mfcc_spec self)) /\
  same_decision self (fst (insert_features mfcc_spec self)).
Proof.
  unfold insert_features.
  destruct (audio <- buffer_to_audio (_chunk_buffer self) ;;
            w <- window_samples (_params self) ;;
            h <- hop_samples (_params self) ;;
            Ok (mfcc_spec audio (sample_rate (_params self)) (w, h)
                  (n_filt (_params self)) (n_fft (_params self))
                  (n_mfcc (_params self)))) as [rows | e];
    [| split; [apply same_settings_refl | apply same_decision_refl]].
  cbn [set_chunk_buffer _inputs _inputs_idx].
  match goal with |- context [if ?c then _ else _] => destruct c end;
    match goal with |- context [assign_rows ?a ?b ?c ?d] =>
      destruct (assign_rows a b c d) end;
    split; repeat split.
Qed.

Lemma score_keeps_settings (self : TFLiteHotWordEngine) :
  same_settings self (fst (score np interpreter self)).
Proof.
  unfold score.
  destruct ((interpreter (_inputs self) <? 0)%float
            || (1 <? interpreter (_inputs self))%float);
    [apply same_settings_refl |].
  cbn [set_probability sensitivity trigger_level chunk_size _activation].
  destruct (decode np (sensitivity self) (trigger_level self) (chunk_size self)
              (_activation self) (interpreter (_inputs self))) as [a [[|] | e]];
    repeat split.
Qed.

(** An output outside [[0, 1]] changes nothing. *)
Lemma score_discards (self : TFLiteHotWordEngine) :
  out_of_range (interpreter (_inputs self)) = true ->
  score np interpreter self = (self, Ok Next).
Proof.
  unfold out_of_range, score. intros ->. reflexivity.
Qed.

(** What [score] does to the counter and the flag. *)
Lemma score_decision (self : TFLiteHotWordEngine) :
  let prob := interpreter (_inputs self) in
  let d := decode np (sensitivity self) (trigger_level self) (chunk_size self)
             (_activation self) prob in
  score np interpreter self = (self, Ok Next) /\ out_of_range prob = true \/
  out_of_range prob = false /\
  _activation (fst (score np interpreter self)) = fst d /\
  match snd d with
  | Ok true =>
      snd (score np interpreter self) = Ok Break /\
      _is_found (fst (score np interpreter self)) = true
  | Ok false =>
      snd (score np interpreter self) = Ok Next /\
      _is_found (fst (score np interpreter self)) = _is_found self
  | Raise e =>
      snd (score np interpreter self) = Raise e /\
      _is_found (fst (score np interpreter self)) = _is_found self
  end.
Proof.
  unfold out_of_range, score. cbv zeta.
  destruct ((interpreter (_inputs self) <? 0)%float
            || (1 <? interpreter (_inputs self))%float);
    [left; split; reflexivity | right].
  cbn [set_probability sensitivity trigger_level chunk_size _activation].
  destruct (decode np (sensitivity self) (trigger_level self) (chunk_size self)
              (_activation self) (interpreter (_inputs self))) as [a [[|] | e]];
    repeat split.
Qed.

Lemma score_bounds (self : TFLiteHotWordEngine) :
  1 <= chunk_size self -> 0 <= trigger_level self ->
  activation_in_bounds self ->
  activation_in_bounds (fst (score np interpreter self)).
Proof.
  intros C T I.
  destruct (score_keeps_settings self) as (_ & Et & Ec & _).
  destruct (score_decision self) as [[E _] | (_ & Ea & _)].
  - rewrite E. exact I.
  - unfold activation_in_bounds in *. rewrite Et, Ec, Ea.
    apply decode_invariant; assumption.
Qed.

(** A step that leaves the loop has triggered: the flag is set and the
    counter pushed down.  Any other step keeps the flag. *)
Lemma score_flag (self self' : TFLiteHotWordEngine) (r : result flow) :
  score np interpreter self = (self', r) ->
  (r = Ok Break ->
   _is_found self' = true /\
   chunk_size self <> 0 /\
   _activation self' = (- (8 * 2048)) / chunk_size self) /\
  (r <> Ok Break -> _is_found self' = _is_found self).
Proof.
  intros E.
  destruct (score_decision self) as [[E' _] | (_ & Ea & D)].
  - rewrite E' in E. injection E as <- <-. split; [discriminate | reflexivity].
  - rewrite E in *. cbn [fst snd] in *.
    destruct (Z.eq_dec (chunk_size self) 0) as [Z0 | NZ].
    + (* the division raises before any trigger is reported *)
      revert D Ea. unfold decode, floordiv. rewrite Z0. cbn [Z.eqb].
      repeat match goal with
        | |- context [activated ?n ?s ?p] => destruct (activated n s p)
        | |- context [Z.ltb ?x ?y] => destruct (Z.ltb_spec x y)
        end; cbn [orb andb fst snd]; intros [D1 D2] _;
        (split; [intros ->; discriminate D1 | intros _; exact D2]).
    + pose proof (decode_triggered np (sensitivity self) (trigger_level self)
                    (chunk_size self) (_activation self)
                    (interpreter (_inputs self)) NZ) as T.
      destruct (snd (decode np (sensitivity self) (trigger_level self)
                       (chunk_size self) (_activation self)
                       (interpreter (_inputs self)))) as [[|] | e];
        destruct D as [D1 D2].
      * split; [| intros N; contradiction].
        intros _. destruct (T eq_refl) as [Tv _].
        repeat split; [exact D2 | exact NZ | congruence].
      * split; [intros ->; discriminate D1 | intros _; exact D2].
      * split; [intros ->; discriminate D1 | intros _; exact D2].
Qed.

Lemma body_keeps_settings (self : TFLiteHotWordEngine) :
  same_settings self (fst (body np mfcc_spec interpreter self)).
Proof.
  unfold body.
  pose proof (insert_features_keeps self) as [S _].
  destruct (insert_features mfcc_spec self) as [s [[|] | e]]; cbn [fst] in *;
    try exact S.
  eapply same_settings_trans; [exact S | apply score_keeps_settings].
Qed.

Lemma body_bounds (self : TFLiteHotWordEngine) :
  1 <= chunk_size self -> 0 <= trigger_level self ->
  activation_in_bounds self ->
  activation_in_bounds (fst (body np mfcc_spec interpreter self)).
Proof.
  intros C T I. unfold body.
  pose proof (insert_features_keeps self) as [(_ & Et & Ec & _) (Ea & _)].
  destruct (insert_features mfcc_spec self) as [s r]; cbn [fst] in *.
  assert (Is : activation_in_bounds s)
    by (unfold activation_in_bounds in *; rewrite Et, Ec, Ea; exact I).
  destruct r as [[|] | e]; cbn [fst]; try exact Is.
  apply score_bounds; [rewrite Ec | rewrite Et |]; assumption.
Qed.

Lemma body_flag (self self' : TFLiteHotWordEngine) (r : result flow) :
  body np mfcc_spec interpreter self = (self', r) ->
  (r = Ok Break ->
   _is_found self' = true /\
   chunk_size self <> 0 /\
   _activation self' = (- (8 * 2048)) / chunk_size self) /\
  (r <> Ok Break -> _is_found self' = _is_found self).
Proof.
  unfold body.
  pose proof (insert_features_keeps self) as [(_ & _ & Ec & _) (_ & Ef & _)].
  destruct (insert_features mfcc_spec self) as [s [[|] | e]]; cbn [fst] in *;
    intros E.
  - destruct (score_flag s self' r E) as [B N].
    rewrite Ec, Ef in *. split; assumption.
  - injection E as <- <-. split; [discriminate | intros _; exact Ef].
  - injection E as <- <-. split; [discriminate | intros _; exact Ef].
Qed.

(** The loop keeps the settings. *)
Lemma process_windows_keeps_settings (fuel : nat) :
  forall (self self' : TFLiteHotWordEngine) (r : result unit),
    process_windows np mfcc_spec interpreter fuel self = Some (self', r) ->
    same_settings self self'.
Proof.
  induction fuel as [| fuel IH]; intros self self' r; cbn [process_windows];
    destruct (_window_bytes self <=? Z.of_nat (length (_chunk_buffer self)));
    try discriminate;
    try (intros E; injection E as <- <-; apply same_settings_refl).
  pose proof (body_keeps_settings self) as S.
  destruct (body np mfcc_spec interpreter self) as [s [[|] | e]]; cbn [fst] in S;
    intros E.
  - eapply same_settings_trans; [exact S | eapply IH; exact E].
  - injection E as <- <-. exact S.
  - injection E as <- <-. exact S.
Qed.

(** The loop keeps the counter within its bounds. *)
Lemma process_windows_bounds (fuel : nat) :
  forall (self self' : TFLiteHotWordEngine) (r : result unit),
    1 <= chunk_size self -> 0 <= trigger_level self ->
    activation_in_bounds self ->
    process_windows np mfcc_spec interpreter fuel self = Some (self', r) ->
    activation_in_bounds self'.
Proof.
  induction fuel as [| fuel IH]; intros self self' r C T I;
    cbn [process_windows];
    destruct (_window_bytes self <=? Z.of_nat (length (_chunk_buffer self)));
    try discriminate;
    try (intros E; injection E as <- <-; exact I).
  pose proof (body_keeps_settings self) as (_ & Et & Ec & _).
  pose proof (body_bounds self C T I) as B.
  destruct (body np mfcc_spec interpreter self) as [s [[|] | e]]; cbn [fst] in *;
    intros E.
  - apply (IH s self' r); [rewrite Ec | rewrite Et | |]; assumption.
  - injection E as <- <-. exact B.
  - injection E as <- <-. exact B.
Qed.

(** When the loop ends with the flag set, a step has triggered and the
    counter is where that step pushed it. *)
Lemma process_windows_found (fuel : nat) :
  forall (self self' : TFLiteHotWordEngine) (r : result unit),
    process_windows np mfcc_spec interpreter fuel self = Some (self', r) ->
    _is_found self = false -> _is_found self' = true ->
    chunk_size self <> 0 /\
    _activation self' = (- (8 * 2048)) / chunk_size self.
Proof.
  induction fuel as [| fuel IH]; intros self self' r; cbn [process_windows];
    destruct (_window_bytes self <=? Z.of_nat (length (_chunk_buffer self)));
    try discriminate;
    try (intros E F F'; injection E as <- <-; congruence).
  pose proof (body_keeps_settings self) as (_ & _ & Ec & _).
  destruct (body np mfcc_spec interpreter self) as [s rb] eqn:B; cbn [fst] in Ec.
  destruct (body_flag self s rb B) as [Bk Nx].
  destruct rb as [[|] | e]; intros E F F'.
  - rewrite <- Ec. apply (IH s self' r E); [| exact F'].
    rewrite Nx by discriminate. exact F.
  - injection E as <- <-. destruct (Bk eq_refl) as (_ & NZ & A).
    split; assumption.
  - injection E as <- <-. rewrite Nx in F' by discriminate. congruence.
Qed.

Lemma update_keeps_settings (fuel : nat) (self self' : TFLiteHotWordEngine)
    (chunk : list byte) (r : result bool) :
  update np mfcc_spec interpreter fuel self chunk = Some (self', r) ->
  same_settings self self'.
Proof.
  unfold update.
  destruct (process_windows np mfcc_spec interpreter fuel _) as [[s [u | e]] |] eqn:P;
    try discriminate; intros E; injection E as <- <-;
    apply (process_windows_keeps_settings _ _ _ _ P).
Qed.

Lemma update_bounds (fuel : nat) (self self' : TFLiteHotWordEngine)
    (chunk : list byte) (r : result bool) :
  1 <= chunk_size self -> 0 <= trigger_level self ->
  activation_in_bounds self ->
  update np mfcc_spec interpreter fuel self chunk = Some (self', r) ->
  activation_in_bounds self'.
Proof.
  intros C T I. unfold update.
  destruct (process_windows np mfcc_spec interpreter fuel _) as [[s [u | e]] |] eqn:P;
    try discriminate; intros E; injection E as <- <-;
    (eapply process_windows_bounds; [| | | exact P]; assumption).
Qed.

(** An [update] that reports the wake word leaves the counter pushed
    down. *)
Lemma update_found (fuel : nat) (self self' : TFLiteHotWordEngine)
    (chunk : list byte) :
  update np mfcc_spec interpreter fuel self chunk = Some (self', Ok true) ->
  chunk_size self <> 0 /\
  _activation self' = (- (8 * 2048)) / chunk_size self.
Proof.
  unfold update.
  destruct (process_windows np mfcc_spec interpreter fuel _) as [[s [u | e]] |] eqn:P;
    try discriminate; intros E; injection E as <- F.
  apply (process_windows_found _ _ _ _ P); [reflexivity | exact F].
Qed.

(** [update] starts by clearing the last probability, so what was stored
    does not matter. *)
Lemma update_ignores_probability (fuel : nat) (self : TFLiteHotWordEngine)
    (q : option float) (chunk : list byte) :
  update np mfcc_spec interpreter fuel (set_probability q self) chunk =
  update np mfcc_spec interpreter fuel self chunk.
Proof. reflexivity. Qed.

Lemma run_ignores_probability (fuel : nat) (self : TFLiteHotWordEngine)
    (q : option float) (chunks : list (list byte)) :
  run np mfcc_spec interpreter fuel (set_probability q self) chunks =
  run np mfcc_spec interpreter fuel self chunks.
Proof.
  destruct chunks as [| chunk chunks]; [reflexivity |].
  cbn [run]. rewrite update_ignores_probability. reflexivity.
Qed.

Lemma default_window_samples : window_samples default_params = Ok 1600.
Proof. vm_compute. reflexivity. Qed.

Lemma default_hop_samples : hop_samples default_params = Ok 800.
Proof. vm_compute. reflexivity. Qed.

Lemma default_n_features : n_features default_params = Ok 29.
Proof. vm_compute. reflexivity. Qed.

(** The instance that [__init__] builds. *)
Lemma init_fresh (sens : float) (tl cs : Z) :
  __init__ sens tl cs =
  Ok {| sensitivity := sens; trigger_level := tl; chunk_size := cs;
        _params := default_params;
        _inputs := repeat (repeat 0%float 13) 29; _inputs_idx := 0;
        _window_bytes := 3200; _hop_bytes := 1600;
        _chunk_buffer := []; _activation := 0;
        _is_found := false; _probability := None |}.
Proof.
  unfold __init__.
  rewrite default_window_samples, default_hop_samples, default_n_features.
  reflexivity.
Qed.

(** What [reset] assigns, and that it leaves the rest alone. *)
Lemma reset_assigns (self self' : TFLiteHotWordEngine) :
  reset self = Ok self' ->
  same_settings self self' /\
  _probability self' = _probability self /\
  zeros_of (_params self) = Ok (_inputs self') /\
  _inputs_idx self' = 0 /\ _chunk_buffer self' = [] /\
  _activation self' = 0 /\ _is_found self' = false.
Proof.
  unfold reset, zeros_of.
  destruct (n_features (_params self)) as [n | e]; [| discriminate].
  cbn [bind].
  destruct (zeros n (n_mfcc (_params self))) as [z | e]; [| discriminate].
  cbn [bind]. intros E. injection E as <-. repeat split.
Qed.

Lemma reachable_settings (fresh self : TFLiteHotWordEngine) :
  reachable np mfcc_spec interpreter fresh self -> same_settings fresh self.
Proof.
  induction 1 as [| fuel self chunk self' r _ IH U | self self' _ IH R].
  - apply same_settings_refl.
  - eapply same_settings_trans; [exact IH |].
    apply (update_keeps_settings _ _ _ _ _ U).
  - eapply same_settings_trans; [exact IH |].
    apply (reset_assigns _ _ R).
Qed.

Lemma after_updates_reachable (fuel : nat) (chunks : list (list byte)) :
  forall fresh self self' : TFLiteHotWordEngine,
    reachable np mfcc_spec interpreter fresh self ->
    after_updates np mfcc_spec interpreter fuel self chunks = Some self' ->
    reachable np mfcc_spec interpreter fresh self'.
Proof.
  induction chunks as [| chunk chunks IH]; intros fresh self self' R; cbn [after_updates].
  - intros E. injection E as <-. exact R.
  - destruct (update np mfcc_spec interpreter fuel self chunk) as [[s r] |] eqn:U;
      [| discriminate].
    apply IH. eapply reach_update; eassumption.
Qed.

End EngineFacts.

(** ** The loop of [update] ends

    With the parameters of [ListenerParams()], an extractor that gives at
    least one frame for audio of one window or more makes every iteration
    take at least one hop off the chunk buffer, so [update] returns. *)

Section Termination.

Variable np : numpy.
Variable mfcc_spec : list Q -> Z -> Z * Z -> Z -> Z -> Z -> list frame.
Variable interpreter : list frame -> float.

Hypothesis one_frame_per_window :
  forall audio : list Q,
    1600 <= Z.of_nat (length audio) ->
    mfcc_spec audio 16000 (1600, 800) 20 512 13 <> [].

Lemma buffer_to_audio_length (b : list byte) (audio : list Q) :
  buffer_to_audio b = Ok audio -> length b = (2 * length audio)%nat.
Proof.
  unfold buffer_to_audio, frombuffer_i2.
  destruct (Z.eqb_spec (Z.of_nat (length b) mod 2) 0) as [H | H]; [| discriminate].
  cbn [bind]. intros E. injection E as <-.
  pose proof (even_length b H) as L.
  rewrite length_map, (i2_items_length _ _ L). exact L.
Qed.

Lemma slice_from_length {A : Type} (k : Z) (l : list A) :
  0 < k -> l <> [] -> (length (slice_from k l) < length l)%nat.
Proof.
  intros K N. unfold slice_from.
  destruct (Z.ltb_spec k 0); [lia |].
  rewrite length_skipn. destruct l; [contradiction | cbn [length]; lia].
Qed.

Lemma score_keeps_buffer (self : TFLiteHotWordEngine) :
  _chunk_buffer (fst (score np interpreter self)) = _chunk_buffer self.
Proof.
  unfold score.
  destruct ((interpreter (_inputs self) <? 0)%float
            || (1 <? interpreter (_inputs self))%float); [reflexivity |].
  cbn [set_probability sensitivity trigger_level chunk_size _activation].
  destruct (decode np (sensitivity self) (trigger_level self) (chunk_size self)
              (_activation self) (interpreter (_inputs self))) as [a [[|] | e]];
    reflexivity.
Qed.

(** An iteration that does not raise shortens the chunk buffer. *)
Lemma insert_features_shortens (self s : TFLiteHotWordEngine) (full : bool) :
  _params self = default_params -> _hop_bytes self = 1600 ->
  3200 <= Z.of_nat (length (_chunk_buffer self)) ->
  insert_features mfcc_spec self = (s, Ok full) ->
  (length (_chunk_buffer s) < length (_chunk_buffer self))%nat.
Proof.
  intros P Hb W. unfold insert_features.
  rewrite P, default_window_samples, default_hop_samples, Hb.
  destruct (buffer_to_audio (_chunk_buffer self)) as [audio | e] eqn:A;
    cbn [bind]; [| discriminate].
  pose proof (buffer_to_audio_length _ _ A) as L.
  pose proof (one_frame_per_window audio ltac:(lia)) as F.
  change (sample_rate default_params) with 16000.
  change (n_filt default_params) with 20.
  change (n_fft default_params) with 512.
  change (n_mfcc default_params) with 13.
  set (rows := mfcc_spec audio 16000 (1600, 800) 20 512 13) in *.
  assert (K : 0 < Z.of_nat (length rows) * 1600)
    by (destruct rows; [contradiction | cbn [length]; lia]).
  assert (N : _chunk_buffer self <> [])
    by (destruct (_chunk_buffer self); [cbn in W; lia | discriminate]).
  pose proof (slice_from_length _ _ K N) as Sh.
  cbn [set_chunk_buffer _inputs _inputs_idx].
  match goal with |- context [if ?c then _ else _] => destruct c end;
    match goal with |- context [assign_rows ?a ?b ?c ?d] =>
      destruct (assign_rows a b c d) end;
    intros E; try discriminate E; injection E as <- _; exact Sh.
Qed.

Lemma body_shortens (self s : TFLiteHotWordEngine) (f : flow) :
  _params self = default_params -> _hop_bytes self = 1600 ->
  3200 <= Z.of_nat (length (_chunk_buffer self)) ->
  body np mfcc_spec interpreter self = (s, Ok f) ->
  (length (_chunk_buffer s) < length (_chunk_buffer self))%nat.
Proof.
  intros P Hb W. unfold body.
  destruct (insert_features mfcc_spec self) as [s1 [[|] | e]] eqn:I;
    intros E; try discriminate E.
  - pose proof (insert_features_shortens _ _ _ P Hb W I) as Sh.
    pose proof (score_keeps_buffer s1) as K. rewrite E in K. cbn [fst] in K.
    rewrite K. exact Sh.
  - injection E as <- _. apply (insert_features_shortens _ _ _ P Hb W I).
Qed.

(** As many iterations as the buffer has bytes are enough. *)
Lemma process_windows_ends (fuel : nat) :
  forall self : TFLiteHotWordEngine,
    _params self = default_params ->
    _window_bytes self = 3200 -> _hop_bytes self = 1600 ->
    (length (_chunk_buffer self) <= fuel)%nat ->
    exists (self' : TFLiteHotWordEngine) (r : result unit),
      process_windows np mfcc_spec interpreter fuel self = Some (self', r).
Proof.
  induction fuel as [| fuel IH]; intros self P Hw Hb L; cbn [process_windows];
    rewrite Hw;
    destruct (Z.leb_spec 3200 (Z.of_nat (length (_chunk_buffer self)))) as [W | W];
    try (eexists; eexists; reflexivity); [lia |].
  pose proof (body_keeps_settings np mfcc_spec interpreter self)
    as (_ & _ & _ & Ep & Ew & Eh).
  destruct (body np mfcc_spec interpreter self) as [s [[|] | e]] eqn:B;
    cbn [fst] in *; try (eexists; eexists; reflexivity).
  pose proof (body_shortens _ _ _ P Hb W B) as Sh.
  apply IH; [congruence | congruence | congruence | lia].
Qed.

(** [update] returns, or raises, on every state with the settings of a
    constructed instance. *)
Lemma update_ends (self : TFLiteHotWordEngine) (chunk : list byte) :
  _params self = default_params ->
  _window_bytes self = 3200 -> _hop_bytes self = 1600 ->
  exists (self' : TFLiteHotWordEngine) (r : result bool),
    update np mfcc_spec interpreter (length (_chunk_buffer self ++ chunk)) self chunk =
    Some (self', r).
Proof.
  intros P Hw Hb. unfold update.
  destruct (process_windows_ends (length (_chunk_buffer self ++ chunk))
              (set_probability None
                 (set_chunk_buffer (_chunk_buffer (set_is_found false self) ++ chunk)
                    (set_is_found false self))) P Hw Hb (le_n _))
    as (s & r & E).
  rewrite E. destruct r as [u | e]; eexists; eexists; reflexivity.
Qed.

End Termination.

(** The stand-in extractor gives a frame for every position of the
    window. *)
Lemma chop_frames_one_per_window (audio : list Q) :
  1600 <= Z.of_nat (length audio) ->
  chop_frames audio 16000 (1600, 800) 20 512 13 <> [].
Proof.
  intros L. unfold chop_frames.
  destruct (Z.ltb_spec (Z.of_nat (length audio)) 1600); [lia |].
  cbn [orb Z.leb Z.compare].
  pose proof (Z.div_pos (Z.of_nat (length audio) - 1600) 800 ltac:(lia) ltac:(lia)).
  destruct (Z.to_nat ((Z.of_nat (length audio) - 1600) / 800 + 1)) eqn:E; [lia |].
  discriminate.
Qed.

(** C4: when the window is full and the scorer answers a value below 0 or
    above 1, the scoring step changes nothing: the counter, the trigger
    flag and the last probability are what they were before it (and at
    the start of the iteration), and the loop goes on with the audio that
    is left. *)
Theorem out_of_range_discarded
    (np : numpy)
    (mfcc_spec : list Q -> Z -> Z * Z -> Z -> Z -> Z -> list frame)
    (interpreter : list frame -> float)
    (self self' : TFLiteHotWordEngine) :
  insert_features mfcc_spec self = (self', Ok true) ->
  out_of_range (interpreter (_inputs self')) = true ->
  score np interpreter self' = (self', Ok Next) /\
  body np mfcc_spec interpreter self = (self', Ok Next) /\
  same_decision self self' /\
  forall fuel : nat,
    (_window_bytes self <=? Z.of_nat (length (_chunk_buffer self))) = true ->
    process_windows np mfcc_spec interpreter (S fuel) self =
    process_windows np mfcc_spec interpreter fuel self'.
Proof.
  intros I R.
  pose proof (score_discards np interpreter self' R) as S.
  assert (B : body np mfcc_spec interpreter self = (self', Ok Next))
    by (unfold body; rewrite I; exact S).
  split; [exact S |]. split; [exact B |]. split.
  - pose proof (insert_features_keeps mfcc_spec self) as [_ D].
    rewrite I in D. exact D.
  - intros fuel W. cbn [process_windows]. rewrite W, B. reflexivity.
Qed.

Lemma out_of_range_discarded_witness :
  exists self self' : TFLiteHotWordEngine,
    primed_engine = Some self /\
    insert_features chop_frames self = (self', Ok true) /\
    body numpy2 chop_frames (constant_model 1.5) self = (self', Ok Next) /\
    _activation self' = _activation self.
Proof.
  eexists. eexists.
  split; [vm_compute; reflexivity |].
  split; [vm_compute; reflexivity |].
  match goal with
  | |- body _ _ _ ?s = (?s', _) /\ _ =>
      destruct (out_of_range_discarded numpy2 chop_frames (constant_model 1.5) s s')
        as (_ & B & (A & _) & _);
      [vm_compute; reflexivity | reflexivity | split; [exact B | exact A]]
  end.
Defined.

(** C5: [reset] on any state of an instance succeeds; it zeroes the
    rolling window, sets the cursor to 0, empties the chunk buffer and
    clears the counter and the flag, leaving the parameters and settings
    as they are; and from then on every sequence of chunks gets from
    [update] the answers and probabilities that a freshly constructed
    instance with the same settings gives. *)
Theorem reset_like_fresh
    (np : numpy)
    (mfcc_spec : list Q -> Z -> Z * Z -> Z -> Z -> Z -> list frame)
    (interpreter : list frame -> float)
    (sens : float) (tl cs : Z) (fresh self : TFLiteHotWordEngine) :
  __init__ sens tl cs = Ok fresh ->
  reachable np mfcc_spec interpreter fresh self ->
  exists self' : TFLiteHotWordEngine,
    reset self = Ok self' /\
    _inputs self' = repeat (repeat 0%float 13) 29 /\
    _inputs self' = _inputs fresh /\
    _inputs_idx self' = 0 /\
    _chunk_buffer self' = [] /\
    _activation self' = 0 /\
    _is_found self' = false /\
    same_settings self self' /\
    forall (fuel : nat) (chunks : list (list byte)),
      run np mfcc_spec interpreter fuel self' chunks =
      run np mfcc_spec interpreter fuel fresh chunks.
Proof.
  intros H R.
  pose proof (reachable_settings _ _ _ _ _ R) as S.
  rewrite init_fresh in H. injection H as <-.
  destruct S as (Es & Et & Ec & Ep & Ew & Eh).
  cbn [sensitivity trigger_level chunk_size _params _window_bytes _hop_bytes]
    in Es, Et, Ec, Ep, Ew, Eh.
  set (fresh := {| sensitivity := sens; trigger_level := tl; chunk_size := cs;
                   _params := default_params;
                   _inputs := repeat (repeat 0%float 13) 29; _inputs_idx := 0;
                   _window_bytes := 3200; _hop_bytes := 1600;
                   _chunk_buffer := []; _activation := 0;
                   _is_found := false; _probability := None |}).
  assert (E : reset self = Ok (set_probability (_probability self) fresh)).
  { unfold reset. rewrite Ep, default_n_features. cbn [bind].
    change (zeros 29 (n_mfcc default_params))
      with (Ok (repeat (repeat 0%float 13) 29)).
    cbn [bind]. f_equal. unfold fresh.
    destruct self; cbn in *; subst; reflexivity. }
  exists (set_probability (_probability self) fresh).
  split; [exact E |].
  repeat (split; [reflexivity |]).
  split; [apply (reset_assigns _ _ E) |].
  intros fuel chunks. apply run_ignores_probability.
Qed.

Lemma reset_like_fresh_witness :
  exists fresh self : TFLiteHotWordEngine,
    __init__ 0.7 1 2048 = Ok fresh /\
    after_updates numpy2 chop_frames (constant_model 0.95) 2 fresh
      (repeat (silence 3200) 16) = Some self /\
    _activation self = -8 /\
    exists self' : TFLiteHotWordEngine,
      reset self = Ok self' /\
      forall (fuel : nat) (chunks : list (list byte)),
        run numpy2 chop_frames (constant_model 0.95) fuel self' chunks =
        run numpy2 chop_frames (constant_model 0.95) fuel fresh chunks.
Proof.
  eexists. eexists.
  split; [vm_compute; reflexivity |].
  split; [vm_compute; reflexivity |].
  split; [reflexivity |].
  match goal with
  | |- exists s', reset ?s = _ /\ (forall fuel chunks, _ = run _ _ _ _ ?f _) =>
      destruct (reset_like_fresh numpy2 chop_frames (constant_model 0.95) 0.7 1 2048 f s)
        as (s' & E & _ & _ & _ & _ & _ & _ & _ & U);
      [ vm_compute; reflexivity
      | apply (after_updates_reachable numpy2 chop_frames (constant_model 0.95) 2
                 (repeat (silence 3200) 16) f f);
          [apply reach_init | vm_compute; reflexivity]
      | exists s'; split; [exact E | exact U] ]
  end.
Defined.

(** ** The scored frames of the engine and the activation counter

    What [update] does to the counter, call after call, is what [feed]
    does with the probabilities that the calls scored. *)

Section ScoredFrames.

Variable np : numpy.
Variable mfcc_spec : list Q -> Z -> Z * Z -> Z -> Z -> Z -> list frame.
Variable interpreter : list frame -> float.

Lemma feed_app (sens : float) (tl cs : Z) (ps1 ps2 : list float) :
  forall a : Z,
    feed np sens tl cs a (ps1 ++ ps2) =
    feed np sens tl cs a ps1 ++
    feed np sens tl cs (feed_activation np sens tl cs a ps1) ps2.
Proof.
  induction ps1 as [| p ps1 IH]; intros a; [reflexivity |].
  cbn [app feed feed_activation].
  destruct (decode np sens tl cs a p) as [a' r]. cbn [fst app].
  rewrite IH. reflexivity.
Qed.

Lemma feed_activation_app (sens : float) (tl cs : Z) (ps1 ps2 : list float) :
  forall a : Z,
    feed_activation np sens tl cs a (ps1 ++ ps2) =
    feed_activation np sens tl cs (feed_activation np sens tl cs a ps1) ps2.
Proof.
  induction ps1 as [| p ps1 IH]; intros a; [reflexivity |].
  cbn [app feed_activation]. apply IH.
Qed.

Lemma feed_length (sens : float) (tl cs : Z) (ps : list float) :
  forall a : Z, length (feed np sens tl cs a ps) = length ps.
Proof.
  induction ps as [| p ps IH]; intros a; [reflexivity |].
  cbn [feed]. destruct (decode np sens tl cs a p) as [a' r].
  cbn [length]. rewrite IH. reflexivity.
Qed.

(** One pass of the loop is no step or one step of the counter, and it
    leaves the loop exactly when that step triggers. *)
Lemma body_feed (self : TFLiteHotWordEngine) :
  chunk_size self <> 0 ->
  let run := feed np (sensitivity self) (trigger_level self) (chunk_size self)
               (_activation self) (body_scored mfcc_spec interpreter self) in
  _activation (fst (body np mfcc_spec interpreter self)) =
    feed_activation np (sensitivity self) (trigger_level self) (chunk_size self)
      (_activation self) (body_scored mfcc_spec interpreter self) /\
  (snd (body np mfcc_spec interpreter self) = Ok Break -> run = [Ok true]) /\
  (snd (body np mfcc_spec interpreter self) <> Ok Break ->
   run = repeat (Ok false) (length (body_scored mfcc_spec interpreter self))).
Proof.
  intros C. cbv zeta. unfold body, body_scored.
  pose proof (insert_features_keeps mfcc_spec self)
    as [(Es & Et & Ec & _) (Ea & _)].
  destruct (insert_features mfcc_spec self) as [s [[|] | e]]; cbn [fst] in *;
    try (cbn [feed feed_activation length repeat fst snd];
         repeat split; [exact Ea | discriminate]).
  pose proof (decode_ok np (sensitivity s) (trigger_level s) (chunk_size s)
                (_activation s) (interpreter (_inputs s))
                ltac:(rewrite Ec; exact C)) as [t Dt].
  destruct (score_decision np interpreter s) as [[E O] | (O & A & D)].
  - unfold out_of_range in O. rewrite O, E.
    cbn [feed feed_activation length repeat fst snd].
    repeat split; [exact Ea | discriminate].
  - unfold out_of_range in O. rewrite O.
    cbn [feed feed_activation length repeat].
    rewrite <- Es, <- Et, <- Ec, <- Ea.
    rewrite Dt in D.
    destruct (decode np (sensitivity s) (trigger_level s) (chunk_size s)
                (_activation s) (interpreter (_inputs s))) as [a r].
    cbn [fst snd] in *. subst r.
    destruct t; destruct D as [D _]; rewrite D;
      repeat split; try exact A; try reflexivity;
      intros N; (discriminate N || contradiction).
Qed.

Lemma body_scored_short (self : TFLiteHotWordEngine) :
  (length (body_scored mfcc_spec interpreter self) <= 1)%nat.
Proof.
  unfold body_scored.
  destruct (insert_features mfcc_spec self) as [s [[|] | e]]; cbn [length];
    try lia.
  destruct ((interpreter (_inputs s) <? 0)%float
            || (1 <? interpreter (_inputs s))%float); cbn [length]; lia.
Qed.

(** The loop steps the counter through the probabilities it scored; none
    of the steps triggers, but the last one when the loop ends with the
    flag set. *)
Lemma process_windows_feed (fuel : nat) :
  forall (self self' : TFLiteHotWordEngine) (r : result unit),
    chunk_size self <> 0 -> _is_found self = false ->
    process_windows np mfcc_spec interpreter fuel self = Some (self', r) ->
    _activation self' =
      feed_activation np (sensitivity self) (trigger_level self) (chunk_size self)
        (_activation self) (scored np mfcc_spec interpreter fuel self) /\
    exists n : nat,
      feed np (sensitivity self) (trigger_level self) (chunk_size self)
        (_activation self) (scored np mfcc_spec interpreter fuel self) =
      repeat (Ok false) n ++ (if _is_found self' then [Ok true] else []).
Proof.
  induction fuel as [| fuel IH]; intros self self' r C F;
    cbn [process_windows scored];
    destruct (_window_bytes self <=? Z.of_nat (length (_chunk_buffer self)));
    try discriminate;
    try (intros E; injection E as <- <-; rewrite F; split;
         [reflexivity | exists 0%nat; reflexivity]).
  pose proof (body_keeps_settings np mfcc_spec interpreter self)
    as (Es & Et & Ec & _).
  pose proof (body_feed self C) as (Ba & Bb & Bn). cbv zeta in Bb, Bn.
  destruct (body np mfcc_spec interpreter self) as [s rb] eqn:B;
    cbn [fst snd] in *.
  destruct (body_flag np mfcc_spec interpreter self s rb B) as [Fb Fn].
  destruct rb as [[|] | e]; intros E.
  - (* the loop goes on *)
    specialize (Bn ltac:(discriminate)).
    assert (Fs : _is_found s = false) by (rewrite Fn by discriminate; exact F).
    destruct (IH s self' r ltac:(rewrite Ec; exact C) Fs E) as [Ia [n In]].
    rewrite Es, Et, Ec, Ba in Ia, In.
    rewrite feed_activation_app, feed_app, Bn, In.
    split; [exact Ia |].
    exists (length (body_scored mfcc_spec interpreter self) + n)%nat.
    rewrite repeat_app, app_assoc. reflexivity.
  - (* the step triggered *)
    injection E as <- <-. specialize (Bb eq_refl).
    destruct (Fb eq_refl) as (Ft & _). rewrite Ft, !app_nil_r.
    split; [exact Ba | exists 0%nat; exact Bb].
  - (* an exception *)
    injection E as <- <-. specialize (Bn ltac:(discriminate)).
    rewrite (Fn ltac:(discriminate)), F, !app_nil_r.
    split; [exact Ba |]. eexists. rewrite app_nil_r. exact Bn.
Qed.

(** What [update] returns is the flag. *)
Lemma update_result_flag (fuel : nat) (self self' : TFLiteHotWordEngine)
    (chunk : list byte) (found : bool) :
  update np mfcc_spec interpreter fuel self chunk = Some (self', Ok found) ->
  _is_found self' = found.
Proof.
  unfold update.
  destruct (process_windows np mfcc_spec interpreter fuel _) as [[s [u | e]] |];
    try discriminate.
  intros E. injection E as <- <-. reflexivity.
Qed.

(** The same for one [update] call. *)
Lemma update_feed (fuel : nat) (self self' : TFLiteHotWordEngine)
    (chunk : list byte) (r : result bool) :
  chunk_size self <> 0 ->
  update np mfcc_spec interpreter fuel self chunk = Some (self', r) ->
  _activation self' =
    feed_activation np (sensitivity self) (trigger_level self) (chunk_size self)
      (_activation self) (update_scored np mfcc_spec interpreter fuel self chunk) /\
  exists n : nat,
    feed np (sensitivity self) (trigger_level self) (chunk_size self)
      (_activation self) (update_scored np mfcc_spec interpreter fuel self chunk) =
    repeat (Ok false) n ++ (if _is_found self' then [Ok true] else []).
Proof.
  intros C. unfold update, update_scored.
  destruct (process_windows np mfcc_spec interpreter fuel _) as [[s ru] |] eqn:P;
    [| discriminate].
  intros E.
  assert (S : self' = s) by (destruct ru; injection E as <- _; reflexivity).
  subst s.
  match type of P with
  | process_windows _ _ _ _ ?st = _ =>
      exact (process_windows_feed fuel st self' ru C eq_refl P)
  end.
Qed.

Lemma after_updates_keeps_settings (fuel : nat) (chunks : list (list byte)) :
  forall self self' : TFLiteHotWordEngine,
    after_updates np mfcc_spec interpreter fuel self chunks = Some self' ->
    same_settings self self'.
Proof.
  induction chunks as [| chunk chunks IH]; intros self self'; cbn [after_updates].
  - intros E. injection E as <-. apply same_settings_refl.
  - destruct (update np mfcc_spec interpreter fuel self chunk) as [[s r] |] eqn:U;
      [| discriminate].
    intros E. eapply same_settings_trans; [| apply (IH _ _ E)].
    apply (update_keeps_settings np mfcc_spec interpreter _ _ _ _ _ U).
Qed.

(** Successive calls step the counter through all they scored. *)
Lemma after_updates_feed (fuel : nat) (chunks : list (list byte)) :
  forall self self' : TFLiteHotWordEngine,
    chunk_size self <> 0 ->
    after_updates np mfcc_spec interpreter fuel self chunks = Some self' ->
    _activation self' =
      feed_activation np (sensitivity self) (trigger_level self) (chunk_size self)
        (_activation self) (run_scored np mfcc_spec interpreter fuel self chunks).
Proof.
  induction chunks as [| chunk chunks IH]; intros self self' C;
    cbn [after_updates run_scored].
  - intros E. injection E as <-. reflexivity.
  - destruct (update np mfcc_spec interpreter fuel self chunk) as [[s r] |] eqn:U;
      [| discriminate].
    intros E.
    pose proof (update_keeps_settings np mfcc_spec interpreter _ _ _ _ _ U)
      as (Es & Et & Ec & _).
    destruct (update_feed _ _ _ _ _ C U) as [A _].
    rewrite (IH s self' ltac:(rewrite Ec; exact C) E), Es, Et, Ec, A.
    rewrite feed_activation_app. reflexivity.
Qed.

(** Between two calls that report the wake word the counter has to climb
    from the value it was pushed down to. *)
Lemma updates_gap (fuel : nat) (self s1 s2 s3 : TFLiteHotWordEngine)
    (c1 c2 : list byte) (mid : list (list byte)) :
  1 <= chunk_size self -> 0 <= trigger_level self ->
  update np mfcc_spec interpreter fuel self c1 = Some (s1, Ok true) ->
  after_updates np mfcc_spec interpreter fuel s1 mid = Some s2 ->
  update np mfcc_spec interpreter fuel s2 c2 = Some (s3, Ok true) ->
  trigger_level self + 1 - (- (8 * 2048)) / chunk_size self <=
  Z.of_nat (length (run_scored np mfcc_spec interpreter fuel s1 mid ++
                    update_scored np mfcc_spec interpreter fuel s2 c2)).
Proof.
  intros C T U1 M U2.
  destruct (update_found np mfcc_spec interpreter _ _ _ _ U1) as [_ A1].
  pose proof (update_keeps_settings np mfcc_spec interpreter _ _ _ _ _ U1)
    as (Es1 & Et1 & Ec1 & _).
  pose proof (after_updates_keeps_settings _ _ _ _ M) as (Es2 & Et2 & Ec2 & _).
  pose proof (after_updates_feed _ _ _ _ ltac:(rewrite Ec1; lia) M) as A2.
  destruct (update_feed _ _ _ _ _ ltac:(rewrite Ec2, Ec1; lia) U2) as [_ [n Fd]].
  assert (F3 : _is_found s3 = true).
  { apply (update_result_flag _ _ _ _ _ U2). }
  rewrite F3, A2, Es2, Et2, Ec2, Es1, Et1, Ec1, A1 in Fd.
  set (sens := sensitivity self) in *. set (tl := trigger_level self) in *.
  set (cs := chunk_size self) in *.
  set (psm := run_scored np mfcc_spec interpreter fuel s1 mid) in *.
  set (ps2 := update_scored np mfcc_spec interpreter fuel s2 c2) in *.
  assert (L2 : length ps2 = S n).
  { rewrite <- (feed_length sens tl cs ps2
                  (feed_activation np sens tl cs (- (8 * 2048) / cs) psm)), Fd.
    rewrite length_app, repeat_length. cbn [length]. lia. }
  assert (Hit : nth_error (feed np sens tl cs (- (8 * 2048) / cs) (psm ++ ps2))
                  (length psm + n) = Some (Ok true)).
  { rewrite feed_app, nth_error_app2 by (rewrite feed_length; lia).
    rewrite feed_length, Fd.
    replace (length psm + n - length psm)%nat with n by lia.
    rewrite nth_error_app2 by (rewrite repeat_length; lia).
    rewrite repeat_length, Nat.sub_diag. reflexivity. }
  rewrite length_app, L2.
  destruct (Z_lt_le_dec (- (8 * 2048) / cs + Z.of_nat (length psm + n)) tl)
    as [Lt | Ge]; [| lia].
  exfalso. revert Hit.
  apply (feed_quiet np sens tl cs _ (- (8 * 2048) / cs) (- (8 * 2048) / cs)); lia.
Qed.

End ScoredFrames.

(** C3: with a chunk size of at least 1 and a trigger level that is not
    negative, an [update] that reports the wake word leaves the counter at
    the pushed-down value, which is negative, and a scoring step reports
    only when the incremented counter is above the trigger level.  The
    counter of the engine moves as [feed] says on the probabilities that
    the calls score.  Between two [update] calls that report the wake
    word, the calls after the first up to the second score more than
    [floor(16384 / chunk_size)] frames (not counting those whose output is
    ignored), whatever the probabilities, so that a cooldown period of
    that many scored frames holds at most one report.  On the counter
    alone: a step triggers only when the incremented counter is above the
    trigger level and leaves it negative, and the next trigger comes more
    than [floor(16384 / chunk_size)] steps later. *)
Theorem cooldown_suppression
    (np : numpy)
    (mfcc_spec : list Q -> Z -> Z * Z -> Z -> Z -> Z -> list frame)
    (interpreter : list frame -> float) :
  (forall (fuel : nat) (self self' : TFLiteHotWordEngine) (chunk : list byte),
     1 <= chunk_size self ->
     update np mfcc_spec interpreter fuel self chunk = Some (self', Ok true) ->
     _activation self' = (- (8 * 2048)) / chunk_size self /\
     _activation self' < 0) /\
  (forall self self' : TFLiteHotWordEngine,
     score np interpreter self = (self', Ok Break) ->
     trigger_level self < _activation self + 1) /\
  (forall (fuel : nat) (self self' : TFLiteHotWordEngine) (chunk : list byte)
          (r : result bool),
     1 <= chunk_size self ->
     update np mfcc_spec interpreter fuel self chunk = Some (self', r) ->
     _activation self' =
       feed_activation np (sensitivity self) (trigger_level self)
         (chunk_size self) (_activation self)
         (update_scored np mfcc_spec interpreter fuel self chunk)) /\
  (forall (fuel : nat) (self s1 s2 s3 : TFLiteHotWordEngine)
          (c1 c2 : list byte) (mid : list (list byte)),
     1 <= chunk_size self -> 0 <= trigger_level self ->
     update np mfcc_spec interpreter fuel self c1 = Some (s1, Ok true) ->
     after_updates np mfcc_spec interpreter fuel s1 mid = Some s2 ->
     update np mfcc_spec interpreter fuel s2 c2 = Some (s3, Ok true) ->
     let frames :=
       run_scored np mfcc_spec interpreter fuel s1 mid ++
       update_scored np mfcc_spec interpreter fuel s2 c2 in
     16384 / chunk_size self < Z.of_nat (length frames) /\
     trigger_level self + 1 + (16384 + chunk_size self - 1) / chunk_size self
       <= Z.of_nat (length frames)) /\
  (forall (sens : float) (tl cs a : Z) (ps : list float) (i : nat),
     1 <= cs -> 0 <= tl ->
     nth_error (feed np sens tl cs a ps) i = Some (Ok true) ->
     tl < feed_activation np sens tl cs a (firstn i ps) + 1 /\
     feed_activation np sens tl cs a (firstn (S i) ps) < 0 /\
     forall j : nat,
       (i < j)%nat ->
       nth_error (feed np sens tl cs a ps) j = Some (Ok true) ->
       16384 / cs < Z.of_nat j - Z.of_nat i /\
       tl + 1 + (16384 + cs - 1) / cs <= Z.of_nat j - Z.of_nat i).
Proof.
  split; [| split; [| split; [| split]]].
  - intros fuel self self' chunk C U.
    destruct (update_found np mfcc_spec interpreter _ _ _ _ U) as [_ A].
    split; [exact A |]. rewrite A. apply pushed_negative, C.
  - intros self self' E.
    destruct (score_decision np interpreter self) as [[E' _] | (_ & _ & D)].
    + rewrite E' in E. discriminate E.
    + rewrite E in D. cbn [fst snd] in D.
      destruct (snd (decode np (sensitivity self) (trigger_level self)
                       (chunk_size self) (_activation self)
                       (interpreter (_inputs self)))) as [[|] | e] eqn:Sd;
        destruct D as [D _]; try discriminate D.
      unfold decode, floordiv in Sd. revert Sd.
      repeat match goal with
        | |- context [activated ?n ?s ?p] => destruct (activated n s p)
        | |- context [Z.ltb ?x ?y] => destruct (Z.ltb_spec x y)
        | |- context [Z.eqb ?x ?y] => destruct (Z.eqb_spec x y)
        end; cbn [orb andb fst snd]; intros Sd; (discriminate Sd || lia).
  - intros fuel self self' chunk r C U.
    apply (update_feed np mfcc_spec interpreter fuel self self' chunk r);
      [lia | exact U].
  - intros fuel self s1 s2 s3 c1 c2 mid C T U1 M U2 frames.
    pose proof (updates_gap np mfcc_spec interpreter fuel self s1 s2 s3 c1 c2 mid
                  C T U1 M U2) as G.
    fold frames in G.
    pose proof (pushed_ceiling _ C) as Pc.
    pose proof (pushed_below_floor _ C) as Pf.
    split; lia.
  - intros sens tl cs a ps i C T Ei.
    destruct (feed_triggered_state np sens tl cs i ps a ltac:(lia) Ei) as [St Lv].
    split; [exact Lv |]. split.
    + rewrite St. apply pushed_negative, C.
    + intros j L Ej.
      pose proof (feed_gap np sens tl cs ps a i j C Ei Ej L) as G.
      pose proof (pushed_ceiling cs C) as Pc.
      pose proof (pushed_below_floor cs C) as Pf.
      split; lia.
Qed.

Lemma cooldown_suppression_witness :
  (exists self self' : TFLiteHotWordEngine,
     listening_engine = Some self /\
     update numpy2 chop_frames (constant_model 0.95) 2 self (silence 3200) =
       Some (self', Ok true) /\
     _activation self' = -8) /\
  feed_activation numpy2 0.7 4 16384 0 (firstn 5 (repeat 0.95%float 12)) < 0 /\
  (exists s0 s1 s2 s3 : TFLiteHotWordEngine,
     eager_engine = Some s0 /\
     update numpy2 chop_frames (constant_model 0.95) 2 s0 (silence 3200) =
       Some (s1, Ok true) /\
     after_updates numpy2 chop_frames (constant_model 0.95) 2 s1
       [silence 3200] = Some s2 /\
     update numpy2 chop_frames (constant_model 0.95) 2 s2 (silence 3200) =
       Some (s3, Ok true) /\
     1 < Z.of_nat (length (run_scored numpy2 chop_frames (constant_model 0.95) 2
                             s1 [silence 3200] ++
                           update_scored numpy2 chop_frames (constant_model 0.95) 2
                             s2 (silence 3200)))).
Proof.
  split; [| split].
  - let v := eval vm_compute in listening_engine in
    match v with
    | Some ?x => pose (self := x)
    end.
    let v := eval vm_compute in
      (update numpy2 chop_frames (constant_model 0.95) 2 self (silence 3200)) in
    match v with
    | Some (?x, _) => pose (self' := x)
    end.
    exists self, self'.
    split; [vm_compute; reflexivity |].
    split; [vm_compute; reflexivity |].
    refine (proj1 (proj1 (cooldown_suppression numpy2 chop_frames (constant_model 0.95))
                     2%nat self self' (silence 3200) _ _));
      [vm_compute; discriminate | vm_compute; reflexivity].
  - refine (proj1 (proj2 (proj2 (proj2 (proj2 (proj2
              (cooldown_suppression numpy2 chop_frames (constant_model 0.95)))))
              0.7%float 4 16384 0 (repeat 0.95%float 12) 4%nat _ _ _)));
      [lia | lia | reflexivity].
  - let v := eval vm_compute in eager_engine in
    match v with
    | Some ?x => pose (s0 := x)
    end.
    let v := eval vm_compute in
      (update numpy2 chop_frames (constant_model 0.95) 2 s0 (silence 3200)) in
    match v with
    | Some (?x, _) => pose (s1 := x)
    end.
    let v := eval vm_compute in
      (after_updates numpy2 chop_frames (constant_model 0.95) 2 s1 [silence 3200]) in
    match v with
    | Some ?x => pose (s2 := x)
    end.
    let v := eval vm_compute in
      (update numpy2 chop_frames (constant_model 0.95) 2 s2 (silence 3200)) in
    match v with
    | Some (?x, _) => pose (s3 := x)
    end.
    exists s0, s1, s2, s3.
    split; [vm_compute; reflexivity |].
    split; [vm_compute; reflexivity |].
    split; [vm_compute; reflexivity |].
    split; [vm_compute; reflexivity |].
    refine (proj1 (proj1 (proj2 (proj2 (proj2
              (cooldown_suppression numpy2 chop_frames (constant_model 0.95)))))
              2%nat s0 s1 s2 s3 (silence 3200) (silence 3200) [silence 3200]
              _ _ _ _ _));
      [ vm_compute; discriminate | vm_compute; discriminate
      | vm_compute; reflexivity | vm_compute; reflexivity
      | vm_compute; reflexivity ].
Defined.

(** C10: with a chunk size of at least 1 and a trigger level that is not
    negative, the counter lies between the floor of [-16384 / chunk_size]
    and the trigger level after construction, after [reset], after every
    scoring step and after every [update].  Inside a step that triggers
    the incremented counter is above the trigger level, and the step
    leaves it at the pushed-down value, which is negative. *)
Theorem activation_stays_in_bounds
    (np : numpy)
    (mfcc_spec : list Q -> Z -> Z * Z -> Z -> Z -> Z -> list frame)
    (interpreter : list frame -> float) :
  (forall (sens : float) (tl cs : Z) (fresh : TFLiteHotWordEngine),
     1 <= cs -> 0 <= tl ->
     __init__ sens tl cs = Ok fresh -> activation_in_bounds fresh) /\
  (forall self self' : TFLiteHotWordEngine,
     1 <= chunk_size self -> 0 <= trigger_level self ->
     reset self = Ok self' -> activation_in_bounds self') /\
  (forall self : TFLiteHotWordEngine,
     1 <= chunk_size self -> 0 <= trigger_level self ->
     activation_in_bounds self ->
     activation_in_bounds (fst (score np interpreter self))) /\
  (forall (fuel : nat) (self self' : TFLiteHotWordEngine) (chunk : list byte)
          (r : result bool),
     1 <= chunk_size self -> 0 <= trigger_level self ->
     activation_in_bounds self ->
     update np mfcc_spec interpreter fuel self chunk = Some (self', r) ->
     activation_in_bounds self') /\
  (forall (sens : float) (tl cs a : Z) (p : float),
     1 <= cs -> 0 <= tl ->
     (- (8 * 2048)) / cs <= a <= tl ->
     (- (8 * 2048)) / cs <= fst (decode np sens tl cs a p) <= tl /\
     (snd (decode np sens tl cs a p) = Ok true ->
      tl < a + 1 /\
      fst (decode np sens tl cs a p) = (- (8 * 2048)) / cs /\
      fst (decode np sens tl cs a p) < 0)).
Proof.
  split; [| split; [| split; [| split]]].
  - intros sens tl cs fresh C T H.
    rewrite init_fresh in H. injection H as <-.
    unfold activation_in_bounds. cbn [chunk_size _activation trigger_level].
    pose proof (pushed_negative cs C). lia.
  - intros self self' C T R.
    destruct (reset_assigns _ _ R) as ((_ & Et & Ec & _) & _ & _ & _ & _ & A & _).
    unfold activation_in_bounds. rewrite Et, Ec, A.
    pose proof (pushed_negative _ C). lia.
  - intros self. apply score_bounds.
  - intros fuel self self' chunk r. apply update_bounds.
  - intros sens tl cs a p C T I.
    split; [apply decode_invariant; assumption |].
    intros Tr.
    destruct (decode_triggered np sens tl cs a p ltac:(lia) Tr) as [E L].
    split; [exact L |]. split; [exact E |].
    rewrite E. apply pushed_negative, C.
Qed.

Lemma activation_stays_in_bounds_witness :
  (exists fresh : TFLiteHotWordEngine,
     __init__ 0.7 4 2048 = Ok fresh /\ activation_in_bounds fresh) /\
  -8 <= fst (decode numpy2 0.7 4 2048 4 0.95) <= 4.
Proof.
  split.
  - eexists. split; [vm_compute; reflexivity |].
    refine (proj1 (activation_stays_in_bounds numpy2 chop_frames (constant_model 0.95))
              0.7%float 4 2048 _ _ _ _); [lia | lia | vm_compute; reflexivity].
  - refine (proj1 (proj2 (proj2 (proj2 (proj2
              (activation_stays_in_bounds numpy2 chop_frames (constant_model 0.95)))))
              0.7%float 4 2048 4 0.95%float _ _ _)); [lia | lia | vm_compute].
    split; discriminate.
Defined.

(** * Further properties of the code *)

(** ** Audio codec: encoding first *)

Section CodecMore.

Lemma byte_val_of_Z (z : Z) : byte_val (byte_of_Z z) = z mod 256.
Proof.
  unfold byte_of_Z, byte_val.
  pose proof (Z.mod_pos_bound z 256 ltac:(lia)) as B.
  destruct (Byte.of_N (Z.to_N (z mod 256))) as [b |] eqn:E.
  - apply Byte.to_of_N in E. rewrite E. apply Z2N.id. lia.
  - apply Byte.of_N_None_iff in E. lia.
Qed.

(** The two bytes of a 16-bit integer read back as that integer. *)
Lemma int16_le_tobytes (z : Z) :
  -32768 <= z < 32768 ->
  int16_le (byte_of_Z z) (byte_of_Z (z / 256)) = z.
Proof.
  intros R. unfold int16_le. rewrite !byte_val_of_Z.
  pose proof (Z.div_mod z 256 ltac:(lia)) as D.
  pose proof (Z.mod_pos_bound z 256 ltac:(lia)) as B.
  pose proof (Z.div_mod (z / 256) 256 ltac:(lia)) as D'.
  pose proof (Z.mod_pos_bound (z / 256) 256 ltac:(lia)) as B'.
  assert (Q : -128 <= z / 256 < 128).
  { split.
    - apply Z.div_le_lower_bound; lia.
    - apply Z.div_lt_upper_bound; lia. }
  destruct (Z.ltb_spec (z mod 256 + 256 * ((z / 256) mod 256)) 32768); lia.
Qed.

Lemma sample_int16_range (x : Q) : -32768 <= sample_int16 x < 32768.
Proof. apply astype_i2_range. Qed.

Lemma audio_to_buffer_length (audio : list Q) :
  length (audio_to_buffer audio) = (2 * length audio)%nat.
Proof.
  induction audio as [| x audio IH]; [reflexivity |].
  cbn [audio_to_buffer flat_map tobytes_i2 app length] in *.
  fold (audio_to_buffer audio). lia.
Qed.

Lemma i2_items_encoded (audio : list Q) :
  i2_items (audio_to_buffer audio) = map sample_int16 audio.
Proof.
  induction audio as [| x audio IH]; [reflexivity |].
  cbn [audio_to_buffer flat_map tobytes_i2 app i2_items map].
  fold (audio_to_buffer audio).
  rewrite IH, int16_le_tobytes by apply sample_int16_range. reflexivity.
Qed.

Lemma i2_items_app (n : nat) :
  forall a b : list byte,
    length a = (2 * n)%nat -> i2_items (a ++ b) = i2_items a ++ i2_items b.
Proof.
  induction n as [| n IH]; intros a b L.
  - destruct a; [reflexivity | discriminate].
  - destruct a as [| lo [| hi a]]; try (cbn in L; lia).
    cbn [app i2_items]. f_equal. apply IH. cbn in L. lia.
Qed.

Lemma i2_items_in_range (n : nat) :
  forall b : list byte,
    (length b <= n)%nat ->
    Forall (fun z => -32768 <= z < 32768) (i2_items b).
Proof.
  induction n as [| n IH]; intros b L.
  - destruct b; [constructor | cbn in L; lia].
  - destruct b as [| lo [| hi b]]; try constructor.
    + apply int16_le_range.
    + apply IH. cbn in L. lia.
Qed.

End CodecMore.

(** X1: what [audio_to_buffer] writes has two bytes for each sample, and
    [buffer_to_audio] takes it back without error, as many samples as went
    in.  A sample whose product with 32768 fits 32 bits comes back as the
    low 16 bits of that product, its fraction dropped, read as a signed
    number, over 32768. *)
Theorem decode_encoded (audio : list Q) :
  length (audio_to_buffer audio) = (2 * length audio)%nat /\
  (exists decoded : list Q,
     buffer_to_audio (audio_to_buffer audio) = Ok decoded /\
     length decoded = length audio) /\
  (Forall (fun x => - 2 ^ 31 <= Qtrunc (x * inject_Z MAX_WAV_VALUE) < 2 ^ 31)
     audio ->
   buffer_to_audio (audio_to_buffer audio) =
     Ok (map (fun x =>
                Qmake (wrap_int16 (Qtrunc (x * inject_Z MAX_WAV_VALUE))) 32768)
           audio)).
Proof.
  assert (D : buffer_to_audio (audio_to_buffer audio) =
              Ok (map (fun x => Qmake (sample_int16 x) 32768) audio)).
  { unfold buffer_to_audio, frombuffer_i2.
    rewrite audio_to_buffer_length, Nat2Z.inj_mul, Z.mul_comm, Z.mod_mul by lia.
    cbn [Z.eqb bind]. rewrite i2_items_encoded, map_map. reflexivity. }
  split; [apply audio_to_buffer_length |]. split.
  - eexists. split; [exact D |]. apply length_map.
  - intros F. rewrite D. f_equal. apply map_ext_in. intros x I.
    rewrite Forall_forall in F. specialize (F x I).
    unfold sample_int16, astype_i2.
    destruct (Z.leb_spec (- 2 ^ 31) (Qtrunc (x * inject_Z MAX_WAV_VALUE)));
      [| lia].
    destruct (Z.ltb_spec (Qtrunc (x * inject_Z MAX_WAV_VALUE)) (2 ^ 31));
      [| lia].
    reflexivity.
Qed.

Lemma decode_encoded_witness :
  buffer_to_audio (audio_to_buffer [(3 # 2)%Q; (-1 # 4)%Q]) =
    Ok [Qmake (-16384) 32768; Qmake (-8192) 32768].
Proof.
  refine (proj2 (proj2 (decode_encoded [(3 # 2)%Q; (-1 # 4)%Q])) _).
  repeat constructor; vm_compute; discriminate.
Defined.

(** X2: a sample of [[-1.0, 1.0)] that is encoded and decoded moves toward
    zero by less than 1/32768. *)
Theorem quantization_error (x : Q) :
  (-1 <= x)%Q -> (x < 1)%Q ->
  let d := Qmake (sample_int16 x) 32768 in
  (x - (1 # 32768) < d)%Q /\ (d < x + (1 # 32768))%Q /\
  ((0 <= x)%Q -> (0 <= d)%Q /\ (d <= x)%Q) /\
  ((x <= 0)%Q -> (x <= d)%Q /\ (d <= 0)%Q).
Proof.
  intros L U d.
  pose proof (scaled_fits x L U) as F.
  assert (E : sample_int16 x = Qtrunc (x * inject_Z MAX_WAV_VALUE))
    by (apply astype_i2_fits, F).
  pose proof (Qtrunc_bounds (x * inject_Z MAX_WAV_VALUE)) as [P N].
  rewrite scaled_num, scaled_den, <- E in P, N.
  unfold d. set (t := sample_int16 x) in *.
  destruct x as [n dx]. unfold Qlt, Qle, Qminus, Qplus, Qopp in *.
  cbn [Qnum Qden] in *.
  assert (Hd : 0 < Z.pos dx) by lia.
  rewrite !Pos2Z.inj_mul.
  set (D := Z.pos dx) in *.
  destruct (Z.le_gt_cases 0 n) as [H | H].
  - specialize (P ltac:(lia)). repeat split; intros; nia.
  - specialize (N ltac:(lia)). repeat split; intros; nia.
Qed.

Lemma quantization_error_witness :
  ((1 # 3) - (1 # 32768) < Qmake (sample_int16 (1 # 3)) 32768)%Q.
Proof.
  refine (proj1 (quantization_error (1 # 3) _ _)); [discriminate | reflexivity].
Defined.

(** X3: the codec works chunk by chunk.  Encoding a concatenation is the
    concatenation of the encodings; decoding a buffer of even length
    followed by another decodes each and concatenates, and raises when the
    second raises. *)
Theorem codec_concatenation :
  (forall a b : list Q,
     audio_to_buffer (a ++ b) = audio_to_buffer a ++ audio_to_buffer b) /\
  (forall a b : list byte,
     Z.of_nat (length a) mod 2 = 0 ->
     buffer_to_audio (a ++ b) =
       (x <- buffer_to_audio a ;; y <- buffer_to_audio b ;; Ok (x ++ y))).
Proof.
  split.
  - intros a b. unfold audio_to_buffer. apply flat_map_app.
  - intros a b H. pose proof (even_length a H) as L.
    unfold buffer_to_audio, frombuffer_i2.
    rewrite length_app, Nat2Z.inj_add, Z.add_mod, H, Z.add_0_l, Z.mod_mod by lia.
    cbn [Z.eqb bind].
    destruct (Z.of_nat (length b) mod 2 =? 0); cbn [bind]; [| reflexivity].
    rewrite (i2_items_app _ a b L), map_app. reflexivity.
Qed.

Lemma codec_concatenation_witness :
  buffer_to_audio ([x00; x80] ++ [xff; x7f; x01]) = Raise ValueError.
Proof.
  rewrite (proj2 codec_concatenation [x00; x80] [xff; x7f; x01] eq_refl).
  reflexivity.
Defined.

(** X4: every sample that [buffer_to_audio] gives lies in [[-1.0, 1.0)]. *)
Theorem decoded_in_unit_range (b : list byte) (audio : list Q) :
  buffer_to_audio b = Ok audio ->
  Forall (fun x => (-1 <= x)%Q /\ (x < 1)%Q) audio.
Proof.
  unfold buffer_to_audio, frombuffer_i2.
  destruct (Z.of_nat (length b) mod 2 =? 0); [| discriminate].
  cbn [bind]. intros E. injection E as <-.
  pose proof (i2_items_in_range (length b) b (le_n _)) as R.
  induction R as [| z zs Hz _ IH]; [constructor |].
  cbn [map]. constructor; [| exact IH].
  unfold Qle, Qlt. cbn. lia.
Qed.

Lemma decoded_in_unit_range_witness :
  Forall (fun x => (-1 <= x)%Q /\ (x < 1)%Q) [Qmake (-32768) 32768; Qmake 32767 32768].
Proof.
  apply (decoded_in_unit_range [x00; x80; xff; x7f]). reflexivity.
Defined.

(** ** Chunking *)

Section ChunkFacts.

Context {A : Type}.

Lemma slice_inside (lo hi : Z) (l : list A) :
  0 <= lo <= hi -> hi <= Z.of_nat (length l) ->
  slice lo hi l = firstn (Z.to_nat (hi - lo)) (skipn (Z.to_nat lo) l).
Proof.
  intros B H. unfold slice, slice_bound.
  destruct (Z.ltb_spec lo 0); [lia |]. destruct (Z.ltb_spec hi 0); [lia |].
  rewrite !Z.min_l by lia. reflexivity.
Qed.

(** Consecutive pieces of one size make up a prefix. *)
Lemma concat_pieces (c : nat) (l : list A) (n : nat) :
  concat (map (fun k => firstn c (skipn (k * c) l)) (seq 0 n)) = firstn (n * c) l.
Proof.
  induction n as [| n IH]; [reflexivity |].
  rewrite seq_S, map_app, concat_app, IH. cbn [map concat Nat.add].
  rewrite app_nil_r, firstn_skipn_comm.
  replace (firstn (n * c) l) with (firstn (n * c) (firstn (n * c + c) l))
    by (rewrite firstn_firstn; f_equal; lia).
  rewrite firstn_skipn. f_equal. lia.
Qed.

(** With a positive size the chunks are the consecutive pieces of that
    size that end before the last item. *)
Lemma chunk_audio_positive (audio : list A) (cs : Z) :
  0 < cs ->
  chunk_audio audio cs =
    Ok (map (fun k => firstn (Z.to_nat cs) (skipn (k * Z.to_nat cs) audio))
          (seq 0 (Z.to_nat ((Z.of_nat (length audio) - 1) / cs)))).
Proof.
  intros C. unfold chunk_audio, py_range.
  set (len := Z.of_nat (length audio)).
  destruct (Z.eqb_spec cs 0); [lia |]. destruct (Z.ltb_spec 0 cs); [| lia].
  assert (N : Z.to_nat (if cs <? len then 1 + (len - 1 - cs) / cs else 0)
              = Z.to_nat ((len - 1) / cs)).
  { destruct (Z.ltb_spec cs len).
    - replace (len - 1 - cs) with (len - 1 + (-1) * cs) by lia.
      rewrite Z.div_add by lia. f_equal. lia.
    - destruct (Z.eq_dec len 0) as [E | E].
      + rewrite E. replace ((0 - 1) / cs) with (-1); [reflexivity |].
        apply (Z.div_unique _ _ _ (cs - 1)); lia.
      + rewrite Z.div_small by lia. reflexivity. }
  rewrite N. cbn [bind]. rewrite map_map. f_equal.
  apply map_ext_in. intros k K. apply in_seq in K.
  assert (B : (Z.of_nat k + 1) * cs <= len - 1).
  { assert (Z.of_nat k + 1 <= (len - 1) / cs) by lia.
    pose proof (Z.mul_div_le (len - 1) cs C). nia. }
  rewrite slice_inside by (fold len; nia).
  f_equal; [lia |]. f_equal. nia.
Qed.

End ChunkFacts.

(** X5: with a positive chunk size, [chunk_audio] yields
    [(len - 1) // chunk_size] chunks, each of exactly [chunk_size] items,
    and put together in order they are the items that the audio starts
    with. *)
Theorem chunk_audio_chunks {A : Type} (audio : list A) (cs : Z) :
  0 < cs ->
  exists chunks : list (list A),
    chunk_audio audio cs = Ok chunks /\
    length chunks = Z.to_nat ((Z.of_nat (length audio) - 1) / cs) /\
    Forall (fun c => Z.of_nat (length c) = cs) chunks /\
    concat chunks = firstn (length chunks * Z.to_nat cs) audio.
Proof.
  intros C. rewrite (chunk_audio_positive audio cs C).
  set (len := Z.of_nat (length audio)).
  set (n := Z.to_nat ((len - 1) / cs)).
  eexists. split; [reflexivity |].
  assert (L : length (map (fun k => firstn (Z.to_nat cs) (skipn (k * Z.to_nat cs) audio))
                        (seq 0 n)) = n)
    by (rewrite length_map, length_seq; reflexivity).
  split; [exact L |]. split.
  - apply Forall_forall. intros c I. apply in_map_iff in I as (k & <- & K).
    apply in_seq in K.
    assert (B : (Z.of_nat k + 1) * cs <= len - 1).
    { assert (Z.of_nat k + 1 <= (len - 1) / cs) by lia.
      pose proof (Z.mul_div_le (len - 1) cs C). nia. }
    rewrite length_firstn, length_skipn. unfold len in B. nia.
  - rewrite L. apply concat_pieces.
Qed.

Lemma chunk_audio_chunks_witness :
  exists chunks : list (list Z),
    chunk_audio [1; 2; 3; 4; 5; 6; 7] 3 = Ok chunks /\ length chunks = 2%nat.
Proof.
  destruct (chunk_audio_chunks [1; 2; 3; 4; 5; 6; 7] 3 ltac:(lia))
    as (chunks & E & L & _).
  exists chunks. split; [exact E | exact L].
Defined.

(** X6: [chunk_audio] never yields the end of the audio.  With a positive
    chunk size and audio that is not empty, between one item and a whole
    chunk is left out after the last chunk: a whole chunk when the length
    is a multiple of the chunk size. *)
Theorem chunk_audio_drops_tail {A : Type} (audio : list A) (cs : Z)
    (chunks : list (list A)) :
  0 < cs -> audio <> [] ->
  chunk_audio audio cs = Ok chunks ->
  let left_out := Z.of_nat (length audio) - Z.of_nat (length (concat chunks)) in
  1 <= left_out <= cs /\
  (Z.of_nat (length audio) mod cs = 0 -> left_out = cs).
Proof.
  intros C N E.
  destruct (chunk_audio_chunks audio cs C) as (chunks' & E' & L & _ & Cc).
  rewrite E in E'. injection E' as <-.
  assert (P : 1 <= Z.of_nat (length audio))
    by (destruct audio; [contradiction | cbn [length]; lia]).
  set (len := Z.of_nat (length audio)) in *.
  pose proof (Z.div_mod (len - 1) cs ltac:(lia)) as D.
  pose proof (Z.mod_pos_bound (len - 1) cs C) as B.
  pose proof (Z.div_pos (len - 1) cs ltac:(lia) C) as Q.
  assert (Lc : Z.of_nat (length (concat chunks)) = cs * ((len - 1) / cs)).
  { rewrite Cc, length_firstn, L. unfold len in *. nia. }
  cbv zeta. rewrite Lc. split; [lia |].
  intros M.
  pose proof (Z.div_mod len cs ltac:(lia)) as D'. rewrite M in D'.
  assert (Eq : (len - 1) / cs = len / cs - 1).
  { symmetry. apply (Z.div_unique _ _ _ (cs - 1)); lia. }
  rewrite Eq. lia.
Qed.

Lemma chunk_audio_drops_tail_witness :
  Z.of_nat (length [1; 2; 3; 4; 5; 6])
    - Z.of_nat (length (concat [[1; 2]; [3; 4]])) = 2.
Proof.
  refine (proj2 (chunk_audio_drops_tail [1; 2; 3; 4; 5; 6] 2 [[1; 2]; [3; 4]]
                   _ _ _) _); [lia | discriminate | reflexivity | reflexivity].
Defined.

(** X7: a chunk size of 0 makes [chunk_audio] raise [ValueError]; a
    negative one, or one that is not smaller than the audio, gives no
    chunk at all. *)
Theorem chunk_audio_edges {A : Type} (audio : list A) (cs : Z) :
  (cs = 0 -> chunk_audio audio cs = Raise ValueError) /\
  (cs < 0 -> chunk_audio audio cs = Ok []) /\
  (Z.of_nat (length audio) <= cs -> cs <> 0 -> chunk_audio audio cs = Ok []).
Proof.
  unfold chunk_audio, py_range. repeat split.
  - intros ->. reflexivity.
  - intros N. destruct (Z.eqb_spec cs 0); [lia |].
    destruct (Z.ltb_spec 0 cs); [lia |].
    destruct (Z.ltb_spec (Z.of_nat (length audio)) cs); [lia |]. reflexivity.
  - intros L N. destruct (Z.eqb_spec cs 0); [lia |].
    destruct (Z.ltb_spec 0 cs).
    + destruct (Z.ltb_spec cs (Z.of_nat (length audio))); [lia |]. reflexivity.
    + destruct (Z.ltb_spec (Z.of_nat (length audio)) cs); [lia |]. reflexivity.
Qed.

Lemma chunk_audio_edges_witness :
  chunk_audio [1; 2; 3] 0 = Raise ValueError /\
  chunk_audio [1; 2; 3] (-2) = Ok [] /\
  chunk_audio [1; 2; 3] 3 = Ok [].
Proof.
  split; [| split].
  - apply (proj1 (chunk_audio_edges [1; 2; 3] 0)). reflexivity.
  - apply (proj1 (proj2 (chunk_audio_edges [1; 2; 3] (-2)))). lia.
  - apply (proj2 (proj2 (chunk_audio_edges [1; 2; 3] 3))); [cbn; lia | lia].
Defined.

(** ** Listener parameters: truncation and a hop of zero *)

(** X8: with a positive hop, [buffer_samples] is the buffer time in samples
    cut down by less than one hop. *)
Theorem buffer_samples_truncates (p : ListenerParams) (h s : Z) :
  hop_samples p = Ok h -> 0 < h ->
  to_samples (sample_rate p) (buffer_t p) = Ok s ->
  exists b : Z, buffer_samples p = Ok b /\ b <= s < b + h.
Proof.
  intros H Hpos S. unfold buffer_samples, floordiv. rewrite S, H. cbn [bind].
  destruct (Z.eqb_spec h 0); [lia |]. cbn [bind].
  eexists. split; [reflexivity |].
  pose proof (Z.div_mod s h ltac:(lia)). pose proof (Z.mod_pos_bound s h Hpos).
  lia.
Qed.

Lemma buffer_samples_truncates_witness :
  exists b : Z,
    buffer_samples
      {| buffer_t := 1.52; window_t := 0.1; hop_t := 0.05; sample_rate := 16000;
         sample_depth := 2; n_fft := 512; n_filt := 20; n_mfcc := 13;
         use_delta := false; vectorizer := Vectorizer.mfccs;
         threshold_config := [[6; 4]]; threshold_center := 0.2 |} = Ok b /\
    b <= 24320 < b + 800.
Proof.
  refine (buffer_samples_truncates _ 800 24320 _ _ _);
    [vm_compute; reflexivity | lia | vm_compute; reflexivity].
Defined.

(** X9: when the hop time rounds to 0 samples, [buffer_samples] and
    [n_features] raise [ZeroDivisionError]. *)
Theorem zero_hop_raises (p : ListenerParams) (s : Z) :
  hop_samples p = Ok 0 ->
  to_samples (sample_rate p) (buffer_t p) = Ok s ->
  buffer_samples p = Raise ZeroDivisionError /\
  n_features p = Raise ZeroDivisionError.
Proof.
  intros H S.
  assert (B : buffer_samples p = Raise ZeroDivisionError)
    by (unfold buffer_samples; rewrite S, H; reflexivity).
  split; [exact B |]. unfold n_features. rewrite B. reflexivity.
Qed.

Lemma zero_hop_raises_witness :
  n_features
    {| buffer_t := 1.5; window_t := 0.1; hop_t := 0.00002; sample_rate := 16000;
       sample_depth := 2; n_fft := 512; n_filt := 20; n_mfcc := 13;
       use_delta := false; vectorizer := Vectorizer.mfccs;
       threshold_config := [[6; 4]]; threshold_center := 0.2 |}
  = Raise ZeroDivisionError.
Proof.
  refine (proj2 (zero_hop_raises _ 24000 _ _));
    [vm_compute; reflexivity | vm_compute; reflexivity].
Defined.

(** ** The activation counter: what follows a trigger, and quiet input *)

Section ActivationMore.

Variable np : numpy.
Variable sens : float.
Variables tl cs : Z.

(** A probability at or below the threshold, or not a number. *)
Lemma decode_not_activated (a : Z) (p : float) :
  0 <= tl -> activated np sens p = false ->
  decode np sens tl cs a p =
    (if a <? 0 then a + 1 else if 0 <? a then a - 1 else a, Ok false).
Proof.
  intros T N. unfold decode. rewrite N. cbn [orb andb].
  destruct (Z.ltb_spec a 0); [| destruct (0 <? a); reflexivity].
  destruct (Z.ltb_spec tl (a + 1)); [lia | reflexivity].
Qed.

Lemma feed_not_activated (ps : list float) :
  forall a : Z,
    0 <= tl ->
    Forall (fun p => activated np sens p = false) ps ->
    feed np sens tl cs a ps = repeat (Ok false) (length ps) /\
    feed_activation np sens tl cs a ps =
      if a <? 0 then Z.min 0 (a + Z.of_nat (length ps))
      else Z.max 0 (a - Z.of_nat (length ps)).
Proof.
  induction ps as [| p ps IH]; intros a T F.
  - cbn [feed feed_activation length repeat]. split; [reflexivity |].
    destruct (Z.ltb_spec a 0); lia.
  - inversion F as [| ? ? Fp Fps]; subst.
    cbn [feed feed_activation length repeat].
    rewrite (decode_not_activated a p T Fp). cbn [fst].
    destruct (IH (if a <? 0 then a + 1 else if 0 <? a then a - 1 else a) T Fps)
      as [E1 E2].
    rewrite E1, E2. split; [reflexivity |].
    destruct (Z.ltb_spec a 0).
    + destruct (Z.ltb_spec (a + 1) 0); lia.
    + destruct (Z.ltb_spec 0 a).
      * destruct (Z.ltb_spec (a - 1) 0); lia.
      * destruct (Z.ltb_spec a 0); lia.
Qed.

(** Pushed down by two or more, the counter stays there as long as the
    probabilities are above the threshold. *)
Lemma feed_locked (ps : list float) :
  1 <= cs <= 8192 -> 0 <= tl ->
  Forall (fun p => activated np sens p = true) ps ->
  feed np sens tl cs (- (8 * 2048) / cs) ps = repeat (Ok false) (length ps).
Proof.
  intros C T F.
  assert (P : - (8 * 2048) / cs + 1 < 0).
  { enough (- (8 * 2048) / cs < -1) by lia.
    apply Z.div_lt_upper_bound; lia. }
  induction F as [| p ps Fp _ IH]; [reflexivity |].
  cbn [feed length repeat].
  assert (D : decode np sens tl cs (- (8 * 2048) / cs) p
              = (- (8 * 2048) / cs, Ok false)).
  { unfold decode, floordiv. rewrite Fp. cbn [orb andb].
    destruct (Z.ltb_spec tl (- (8 * 2048) / cs + 1)); [lia |].
    destruct (Z.ltb_spec (- (8 * 2048) / cs + 1) 0); [| lia].
    cbn [orb]. destruct (Z.eqb_spec cs 0); [lia | reflexivity]. }
  rewrite D, IH. reflexivity.
Qed.

(** With a trigger level that is not negative only an activated
    probability triggers, and only when the counter has reached the
    level. *)
Lemma decode_triggered_activated (a : Z) (p : float) :
  0 <= tl -> snd (decode np sens tl cs a p) = Ok true ->
  activated np sens p = true /\ tl <= a.
Proof.
  intros T. unfold decode, floordiv.
  destruct (activated np sens p);
    repeat match goal with
      | |- context [Z.ltb ?x ?y] => destruct (Z.ltb_spec x y)
      | |- context [Z.eqb ?x ?y] => destruct (Z.eqb_spec x y)
      end; cbn [orb andb fst snd]; intros E; try discriminate E;
    split; (reflexivity || lia).
Qed.

End ActivationMore.

(** X10: after a trigger, as long as every probability passes the test
    [prob > 1.0 - self.sensitivity] of the code, as the installed NumPy
    evaluates it, there is no further trigger, however long the input (for
    a chunk size from 1 to 8192 and a trigger level that is not negative):
    the counter is pushed down again at every step. *)
Theorem one_trigger_under_constant_detection
    (np : numpy) (sens : float) (tl cs a : Z) (ps : list float) (i j : nat) :
  1 <= cs <= 8192 -> 0 <= tl ->
  nth_error (feed np sens tl cs a ps) i = Some (Ok true) ->
  Forall (fun p => activated np sens p = true) (skipn (S i) ps) ->
  (i < j)%nat ->
  nth_error (feed np sens tl cs a ps) j <> Some (Ok true).
Proof.
  intros C T Ei F L.
  destruct (feed_triggered_state np sens tl cs i ps a ltac:(lia) Ei) as [St _].
  replace j with (S i + (j - S i))%nat by lia.
  rewrite feed_split, St, (feed_locked np sens tl cs _ C T F).
  intros E. apply nth_error_In, repeat_spec in E. discriminate E.
Qed.

Lemma one_trigger_under_constant_detection_witness :
  nth_error (feed numpy2 0.7 4 2048 0 (repeat 0.95%float 40)) 39 <> Some (Ok true).
Proof.
  apply (one_trigger_under_constant_detection numpy2 0.7 4 2048 0
           (repeat 0.95%float 40) 4 39);
    [lia | lia | reflexivity | repeat constructor | lia].
Defined.

(** X11: probabilities that do not pass the test
    [prob > 1.0 - self.sensitivity] of the code never trigger (for a
    trigger level that is not negative) and walk the counter towards 0 by
    one a step: up from a negative value, down from a positive one, and no
    further than 0. *)
Theorem quiet_input_returns_to_zero
    (np : numpy) (sens : float) (tl cs a : Z) (ps : list float) :
  0 <= tl ->
  Forall (fun p => activated np sens p = false) ps ->
  feed np sens tl cs a ps = repeat (Ok false) (length ps) /\
  feed_activation np sens tl cs a ps =
    if a <? 0 then Z.min 0 (a + Z.of_nat (length ps))
    else Z.max 0 (a - Z.of_nat (length ps)).
Proof.
  intros T F. apply feed_not_activated; assumption.
Qed.

Lemma quiet_input_returns_to_zero_witness :
  feed_activation numpy2 0.7 4 2048 (-8) (repeat 0.1%float 5) = -3 /\
  feed_activation numpy2 0.7 4 2048 3 (repeat 0.1%float 5) = 0.
Proof.
  split.
  - refine (proj2 (quiet_input_returns_to_zero numpy2 0.7 4 2048 (-8) (repeat 0.1%float 5) _ _));
      [lia | repeat constructor].
  - refine (proj2 (quiet_input_returns_to_zero numpy2 0.7 4 2048 3 (repeat 0.1%float 5) _ _));
      [lia | repeat constructor].
Defined.

(** ** The engine: accumulation, the flag, the probability, the window *)

Section EngineMore.

Variable np : numpy.
Variable mfcc_spec : list Q -> Z -> Z * Z -> Z -> Z -> Z -> list frame.
Variable interpreter : list frame -> float.

(** [update] on a state only looks at the chunk buffer with the chunk
    appended. *)
Lemma update_appends (fuel : nat) (self : TFLiteHotWordEngine)
    (c1 c2 : list byte) :
  update np mfcc_spec interpreter fuel
    (set_probability None
       (set_chunk_buffer (_chunk_buffer self ++ c1) (set_is_found false self))) c2 =
  update np mfcc_spec interpreter fuel self (c1 ++ c2).
Proof.
  unfold update. cbn [set_probability set_chunk_buffer set_is_found _chunk_buffer].
  rewrite app_assoc. reflexivity.
Qed.

Lemma score_probability (self : TFLiteHotWordEngine) :
  probability_in_range self ->
  probability_in_range (fst (score np interpreter self)).
Proof.
  intros I. unfold score.
  destruct ((interpreter (_inputs self) <? 0)%float
            || (1 <? interpreter (_inputs self))%float) eqn:R; [exact I |].
  cbn [set_probability sensitivity trigger_level chunk_size _activation].
  destruct (decode np (sensitivity self) (trigger_level self) (chunk_size self)
              (_activation self) (interpreter (_inputs self))) as [a [[|] | e]];
    exact R.
Qed.

Lemma body_probability (self : TFLiteHotWordEngine) :
  probability_in_range self ->
  probability_in_range (fst (body np mfcc_spec interpreter self)).
Proof.
  intros I. unfold body.
  pose proof (insert_features_keeps mfcc_spec self) as [_ (_ & _ & Ep)].
  destruct (insert_features mfcc_spec self) as [s r]; cbn [fst] in Ep.
  assert (Is : probability_in_range s)
    by (unfold probability_in_range in *; rewrite Ep; exact I).
  destruct r as [[|] | e]; cbn [fst]; try exact Is.
  apply score_probability, Is.
Qed.

Lemma process_windows_probability (fuel : nat) :
  forall (self self' : TFLiteHotWordEngine) (r : result unit),
    probability_in_range self ->
    process_windows np mfcc_spec interpreter fuel self = Some (self', r) ->
    probability_in_range self'.
Proof.
  induction fuel as [| fuel IH]; intros self self' r I; cbn [process_windows];
    destruct (_window_bytes self <=? Z.of_nat (length (_chunk_buffer self)));
    try discriminate;
    try (intros E; injection E as <- <-; exact I).
  pose proof (body_probability self I) as B.
  destruct (body np mfcc_spec interpreter self) as [s [[|] | e]]; cbn [fst] in B;
    intros E.
  - apply (IH s self' r B E).
  - injection E as <- <-. exact B.
  - injection E as <- <-. exact B.
Qed.

(** A loop that ends with an exception leaves the flag as it was. *)
Lemma process_windows_raise_flag (fuel : nat) :
  forall (self self' : TFLiteHotWordEngine) (e : exn),
    process_windows np mfcc_spec interpreter fuel self = Some (self', Raise e) ->
    _is_found self' = _is_found self.
Proof.
  induction fuel as [| fuel IH]; intros self self' e; cbn [process_windows];
    destruct (_window_bytes self <=? Z.of_nat (length (_chunk_buffer self)));
    try discriminate.
  destruct (body np mfcc_spec interpreter self) as [s rb] eqn:B.
  destruct (body_flag np mfcc_spec interpreter self s rb B) as [_ Nx].
  destruct rb as [[|] | e']; intros E; try discriminate E.
  - rewrite (IH s self' e E). apply Nx. discriminate.
  - injection E as <- <-. apply Nx. discriminate.
Qed.

(** The step that leaves the loop has stored a probability above the
    threshold. *)
Lemma score_break_probability (self self' : TFLiteHotWordEngine) :
  0 <= trigger_level self ->
  score np interpreter self = (self', Ok Break) ->
  exists prob : float,
    _probability self' = Some prob /\
    out_of_range prob = false /\
    activated np (sensitivity self) prob = true.
Proof.
  intros T. unfold score, out_of_range.
  destruct ((interpreter (_inputs self) <? 0)%float
            || (1 <? interpreter (_inputs self))%float) eqn:R; [discriminate |].
  cbn [set_probability sensitivity trigger_level chunk_size _activation].
  pose proof (decode_triggered_activated np (sensitivity self) (trigger_level self)
                (chunk_size self) (_activation self)
                (interpreter (_inputs self)) T) as A.
  destruct (decode np (sensitivity self) (trigger_level self) (chunk_size self)
              (_activation self) (interpreter (_inputs self))) as [a [[|] | e]];
    intros E; try discriminate E.
  injection E as <-. cbn [snd] in A. destruct (A eq_refl) as [Act _].
  exists (interpreter (_inputs self)). repeat split; assumption.
Qed.

Lemma process_windows_found_probability (fuel : nat) :
  forall (self self' : TFLiteHotWordEngine) (r : result unit),
    0 <= trigger_level self ->
    process_windows np mfcc_spec interpreter fuel self = Some (self', r) ->
    _is_found self = false -> _is_found self' = true ->
    exists prob : float,
      _probability self' = Some prob /\
      out_of_range prob = false /\
      activated np (sensitivity self) prob = true.
Proof.
  induction fuel as [| fuel IH]; intros self self' r T; cbn [process_windows];
    destruct (_window_bytes self <=? Z.of_nat (length (_chunk_buffer self)));
    try discriminate;
    try (intros E F F'; injection E as <- <-; congruence).
  pose proof (body_keeps_settings np mfcc_spec interpreter self) as (Es & Et & _).
  destruct (body np mfcc_spec interpreter self) as [s rb] eqn:B; cbn [fst] in Es, Et.
  destruct (body_flag np mfcc_spec interpreter self s rb B) as [_ Nx].
  destruct rb as [[|] | e]; intros E F F'.
  - rewrite <- Es. apply (IH s self' r); [rewrite Et; exact T | exact E | | exact F'].
    rewrite Nx by discriminate. exact F.
  - injection E as <- <-. revert B. unfold body.
    pose proof (insert_features_keeps mfcc_spec self) as [(Es' & Et' & _) _].
    destruct (insert_features mfcc_spec self) as [s1 [[|] | e]]; cbn [fst] in *;
      intros B; try discriminate B.
    rewrite <- Es'. apply score_break_probability; [rewrite Et'; exact T | exact B].
  - injection E as <- <-. rewrite Nx in F' by discriminate. congruence.
Qed.

Lemma roll_left_length {A : Type} (k : Z) (l : list A) :
  length (roll_left k l) = length l.
Proof.
  unfold roll_left. destruct l as [| x l]; [reflexivity |].
  set (l' := x :: l). set (r := Z.to_nat (k mod Z.of_nat (length l'))).
  rewrite length_app, length_skipn, length_firstn.
  assert (r < length l')%nat.
  { unfold r. pose proof (Z.mod_pos_bound k (Z.of_nat (length l'))
                            ltac:(unfold l'; cbn [length]; lia)). lia. }
  lia.
Qed.

Lemma slice_bound_range (cap i : Z) : 0 <= cap -> 0 <= slice_bound cap i <= cap.
Proof.
  intros C. unfold slice_bound. destruct (Z.ltb_spec i 0); lia.
Qed.

Lemma assign_rows_length (inputs rows inputs' : list frame) (idx e : Z) :
  assign_rows inputs idx e rows = Ok inputs' -> length inputs' = length inputs.
Proof.
  unfold assign_rows.
  pose proof (slice_bound_range (Z.of_nat (length inputs)) idx ltac:(lia)) as Bs.
  pose proof (slice_bound_range (Z.of_nat (length inputs)) e ltac:(lia)) as Be.
  set (start := slice_bound (Z.of_nat (length inputs)) idx) in *.
  set (stop := slice_bound (Z.of_nat (length inputs)) e) in *.
  destruct (Z.eqb_spec (Z.of_nat (length rows)) (Z.max 0 (stop - start))) as [L | L].
  - intros E. injection E as <-.
    rewrite !length_app, length_firstn, length_skipn. lia.
  - destruct rows as [| row [| ? ?]]; try discriminate.
    intros E. injection E as <-.
    rewrite !length_app, length_firstn, length_skipn, repeat_length. lia.
Qed.

Lemma insert_features_window_length (self : TFLiteHotWordEngine) :
  length (_inputs (fst (insert_features mfcc_spec self))) = length (_inputs self).
Proof.
  unfold insert_features.
  destruct (audio <- buffer_to_audio (_chunk_buffer self) ;;
            w <- window_samples (_params self) ;;
            h <- hop_samples (_params self) ;;
            Ok (mfcc_spec audio (sample_rate (_params self)) (w, h)
                  (n_filt (_params self)) (n_fft (_params self))
                  (n_mfcc (_params self)))) as [rows | e]; [| reflexivity].
  cbn [set_chunk_buffer _inputs _inputs_idx].
  match goal with |- context [if ?c then _ else _] => destruct c end;
    cbn [set_inputs set_inputs_idx _inputs _inputs_idx];
    match goal with |- context [assign_rows ?a ?b ?c ?d] =>
      destruct (assign_rows a b c d) as [inputs' |] eqn:E end;
    cbn [fst set_inputs set_inputs_idx _inputs];
    try (apply assign_rows_length in E; rewrite E);
    try apply roll_left_length; reflexivity.
Qed.

Lemma score_keeps_window (self : TFLiteHotWordEngine) :
  _inputs (fst (score np interpreter self)) = _inputs self.
Proof.
  unfold score.
  destruct ((interpreter (_inputs self) <? 0)%float
            || (1 <? interpreter (_inputs self))%float); [reflexivity |].
  cbn [set_probability sensitivity trigger_level chunk_size _activation].
  destruct (decode np (sensitivity self) (trigger_level self) (chunk_size self)
              (_activation self) (interpreter (_inputs self))) as [a [[|] | e]];
    reflexivity.
Qed.

Lemma body_window_length (self : TFLiteHotWordEngine) :
  length (_inputs (fst (body np mfcc_spec interpreter self))) = length (_inputs self).
Proof.
  unfold body. pose proof (insert_features_window_length self) as L.
  destruct (insert_features mfcc_spec self) as [s [[|] | e]]; cbn [fst] in *;
    try exact L.
  rewrite score_keeps_window. exact L.
Qed.

Lemma process_windows_window_length (fuel : nat) :
  forall (self self' : TFLiteHotWordEngine) (r : result unit),
    process_windows np mfcc_spec interpreter fuel self = Some (self', r) ->
    length (_inputs self') = length (_inputs self).
Proof.
  induction fuel as [| fuel IH]; intros self self' r; cbn [process_windows];
    destruct (_window_bytes self <=? Z.of_nat (length (_chunk_buffer self)));
    try discriminate;
    try (intros E; injection E as <- <-; reflexivity).
  pose proof (body_window_length self) as B.
  destruct (body np mfcc_spec interpreter self) as [s [[|] | e]]; cbn [fst] in B;
    intros E.
  - rewrite (IH s self' r E). exact B.
  - injection E as <- <-. exact B.
  - injection E as <- <-. exact B.
Qed.

End EngineMore.

(** X12: a chunk that leaves the buffer shorter than a window is only kept:
    [update] returns [False] with no probability and touches neither the
    window nor the counter, and a following chunk is treated as if both
    had come as one. *)
Theorem short_chunk_accumulates
    (np : numpy)
    (mfcc_spec : list Q -> Z -> Z * Z -> Z -> Z -> Z -> list frame)
    (interpreter : list frame -> float)
    (fuel : nat) (self : TFLiteHotWordEngine) (c1 : list byte) :
  Z.of_nat (length (_chunk_buffer self ++ c1)) < _window_bytes self ->
  exists s1 : TFLiteHotWordEngine,
    update np mfcc_spec interpreter fuel self c1 = Some (s1, Ok false) /\
    probability s1 = None /\
    _chunk_buffer s1 = _chunk_buffer self ++ c1 /\
    _inputs s1 = _inputs self /\ _inputs_idx s1 = _inputs_idx self /\
    _activation s1 = _activation self /\
    forall (fuel' : nat) (c2 : list byte),
      update np mfcc_spec interpreter fuel' s1 c2 =
      update np mfcc_spec interpreter fuel' self (c1 ++ c2).
Proof.
  intros L.
  exists (set_probability None
            (set_chunk_buffer (_chunk_buffer self ++ c1) (set_is_found false self))).
  split.
  - unfold update.
    destruct fuel; cbn [process_windows set_probability set_chunk_buffer
                          set_is_found _window_bytes _chunk_buffer];
      destruct (Z.leb_spec (_window_bytes self)
                  (Z.of_nat (length (_chunk_buffer self ++ c1)))); try lia;
      reflexivity.
  - repeat (split; [reflexivity |]).
    intros fuel' c2. apply update_appends.
Qed.

Lemma short_chunk_accumulates_witness :
  exists (fresh s1 : TFLiteHotWordEngine),
    __init__ 0.7 4 2048 = Ok fresh /\
    update numpy2 chop_frames (constant_model 0.95) 0 fresh (silence 2048) =
      Some (s1, Ok false) /\
    _chunk_buffer s1 = silence 2048.
Proof.
  let v := eval vm_compute in (__init__ 0.7 4 2048) in
  match v with
  | Ok ?x => pose (fresh := x)
  end.
  destruct (short_chunk_accumulates numpy2 chop_frames (constant_model 0.95) 0 fresh
              (silence 2048)) as (s1 & U & _ & B & _);
    [vm_compute; reflexivity |].
  exists fresh, s1.
  split; [vm_compute; reflexivity |]. split; [exact U | exact B].
Defined.

(** X13: when the buffer with the chunk holds a window or more but an odd
    number of bytes, [update] raises [ValueError] before anything is
    consumed: the bytes stay in the buffer, the window and the counter are
    as before, and the next chunk is treated as if both had come as
    one. *)
Theorem odd_length_raises
    (np : numpy)
    (mfcc_spec : list Q -> Z -> Z * Z -> Z -> Z -> Z -> list frame)
    (interpreter : list frame -> float)
    (fuel : nat) (self : TFLiteHotWordEngine) (c1 : list byte) :
  _window_bytes self <= Z.of_nat (length (_chunk_buffer self ++ c1)) ->
  Z.of_nat (length (_chunk_buffer self ++ c1)) mod 2 = 1 ->
  exists s1 : TFLiteHotWordEngine,
    update np mfcc_spec interpreter (S fuel) self c1 = Some (s1, Raise ValueError) /\
    found_wake_word s1 = false /\ probability s1 = None /\
    _chunk_buffer s1 = _chunk_buffer self ++ c1 /\
    _inputs s1 = _inputs self /\ _inputs_idx s1 = _inputs_idx self /\
    _activation s1 = _activation self /\
    forall (fuel' : nat) (c2 : list byte),
      update np mfcc_spec interpreter fuel' s1 c2 =
      update np mfcc_spec interpreter fuel' self (c1 ++ c2).
Proof.
  intros W O.
  exists (set_probability None
            (set_chunk_buffer (_chunk_buffer self ++ c1) (set_is_found false self))).
  split.
  - unfold update.
    cbn [process_windows set_probability set_chunk_buffer set_is_found
           _window_bytes _chunk_buffer].
    destruct (Z.leb_spec (_window_bytes self)
                (Z.of_nat (length (_chunk_buffer self ++ c1)))); [| lia].
    unfold body, insert_features, buffer_to_audio, frombuffer_i2.
    cbn [set_probability set_chunk_buffer set_is_found _chunk_buffer].
    rewrite O. reflexivity.
  - repeat (split; [reflexivity |]).
    intros fuel' c2. apply update_appends.
Qed.

Lemma odd_length_raises_witness :
  exists (fresh s1 : TFLiteHotWordEngine),
    __init__ 0.7 4 2048 = Ok fresh /\
    update numpy2 chop_frames (constant_model 0.95) 1 fresh (silence 3201) =
      Some (s1, Raise ValueError) /\
    _chunk_buffer s1 = silence 3201.
Proof.
  let v := eval vm_compute in (__init__ 0.7 4 2048) in
  match v with
  | Ok ?x => pose (fresh := x)
  end.
  destruct (odd_length_raises numpy2 chop_frames (constant_model 0.95) 0 fresh
              (silence 3201)) as (s1 & U & _ & _ & B & _);
    [vm_compute; discriminate | vm_compute; reflexivity |].
  exists fresh, s1.
  split; [vm_compute; reflexivity |]. split; [exact U | exact B].
Defined.

(** X14: after [update], whatever it returned or raised, the [probability]
    property is [None] or a value that is neither below 0 nor above 1. *)
Theorem probability_never_out_of_range
    (np : numpy)
    (mfcc_spec : list Q -> Z -> Z * Z -> Z -> Z -> Z -> list frame)
    (interpreter : list frame -> float)
    (fuel : nat) (self self' : TFLiteHotWordEngine) (chunk : list byte)
    (r : result bool) :
  update np mfcc_spec interpreter fuel self chunk = Some (self', r) ->
  match probability self' with
  | Some prob => (prob <? 0.0)%float = false /\ (1.0 <? prob)%float = false
  | None => True
  end.
Proof.
  unfold update.
  destruct (process_windows np mfcc_spec interpreter fuel _) as [[s ru] |] eqn:P;
    [| discriminate].
  intros E.
  assert (S : self' = s) by (destruct ru; injection E as <- _; reflexivity).
  subst s.
  assert (R : probability_in_range self')
    by (eapply process_windows_probability; [| exact P]; exact I).
  unfold probability_in_range, out_of_range, probability in *.
  destruct (_probability self'); [apply orb_false_iff, R | exact I].
Qed.

Lemma probability_never_out_of_range_witness :
  exists (self self' : TFLiteHotWordEngine),
    listening_engine = Some self /\
    update numpy2 chop_frames (constant_model 0.95) 2 self (silence 3200) =
      Some (self', Ok true) /\
    match probability self' with
    | Some prob => (prob <? 0.0)%float = false /\ (1.0 <? prob)%float = false
    | None => True
    end.
Proof.
  let v := eval vm_compute in listening_engine in
  match v with
  | Some ?x => pose (self := x)
  end.
  let v := eval vm_compute in
    (update numpy2 chop_frames (constant_model 0.95) 2 self (silence 3200)) in
  match v with
  | Some (?x, _) => pose (self' := x)
  end.
  exists self, self'.
  split; [vm_compute; reflexivity |].
  split; [vm_compute; reflexivity |].
  apply (probability_never_out_of_range numpy2 chop_frames (constant_model 0.95) 2
           self self' (silence 3200) (Ok true)).
  vm_compute. reflexivity.
Defined.

(** X15: after [update], [found_wake_word] answers [True] exactly when the
    call returned [True]; after a call that raised it answers [False]. *)
Theorem found_wake_word_is_last_result
    (np : numpy)
    (mfcc_spec : list Q -> Z -> Z * Z -> Z -> Z -> Z -> list frame)
    (interpreter : list frame -> float)
    (fuel : nat) (self self' : TFLiteHotWordEngine) (chunk : list byte)
    (r : result bool) :
  update np mfcc_spec interpreter fuel self chunk = Some (self', r) ->
  (found_wake_word self' = true <-> r = Ok true).
Proof.
  unfold update, found_wake_word.
  destruct (process_windows np mfcc_spec interpreter fuel _) as [[s [u | e]] |] eqn:P;
    try discriminate; intros E; injection E as <- <-.
  - split; [intros -> | intros F; injection F as ->]; reflexivity.
  - rewrite (process_windows_raise_flag np mfcc_spec interpreter _ _ _ _ P).
    split; discriminate.
Qed.

Lemma found_wake_word_is_last_result_witness :
  exists (fresh s1 : TFLiteHotWordEngine),
    __init__ 0.7 4 2048 = Ok fresh /\
    update numpy2 chop_frames (constant_model 0.95) 1 fresh (silence 3201) =
      Some (s1, Raise ValueError) /\
    found_wake_word s1 <> true.
Proof.
  let v := eval vm_compute in (__init__ 0.7 4 2048) in
  match v with
  | Ok ?x => pose (fresh := x)
  end.
  let v := eval vm_compute in
    (update numpy2 chop_frames (constant_model 0.95) 1 fresh (silence 3201)) in
  match v with
  | Some (?x, _) => pose (s1 := x)
  end.
  exists fresh, s1.
  split; [vm_compute; reflexivity |].
  split; [vm_compute; reflexivity |].
  intros F.
  apply (found_wake_word_is_last_result numpy2 chop_frames (constant_model 0.95) 1
           fresh s1 (silence 3201) (Raise ValueError)) in F;
    [discriminate F | vm_compute; reflexivity].
Defined.

(** X16: with a trigger level that is not negative, an [update] that
    returns [True] leaves a probability, and that probability is within
    [[0, 1]] and passes the test [prob > 1.0 - self.sensitivity] of the
    code. *)
Theorem reported_wake_word_has_probability
    (np : numpy)
    (mfcc_spec : list Q -> Z -> Z * Z -> Z -> Z -> Z -> list frame)
    (interpreter : list frame -> float)
    (fuel : nat) (self self' : TFLiteHotWordEngine) (chunk : list byte) :
  0 <= trigger_level self ->
  update np mfcc_spec interpreter fuel self chunk = Some (self', Ok true) ->
  exists prob : float,
    probability self' = Some prob /\
    (prob <? 0.0)%float = false /\ (1.0 <? prob)%float = false /\
    activated np (sensitivity self) prob = true.
Proof.
  intros T. unfold update.
  destruct (process_windows np mfcc_spec interpreter fuel _) as [[s [u | e]] |] eqn:P;
    try discriminate; intros E; injection E as <- F.
  destruct (process_windows_found_probability np mfcc_spec interpreter _ _ _ _
              (T : 0 <= trigger_level
                         (set_probability None
                            (set_chunk_buffer
                               (_chunk_buffer (set_is_found false self) ++ chunk)
                               (set_is_found false self))))
              P eq_refl F) as (prob & Ep & R & A).
  exists prob. unfold out_of_range in R. apply orb_false_iff in R.
  repeat split; try assumption; apply R.
Qed.

Lemma reported_wake_word_has_probability_witness :
  exists (self self' : TFLiteHotWordEngine) (prob : float),
    listening_engine = Some self /\
    probability self' = Some prob /\
    activated numpy2 0.7 prob = true.
Proof.
  let v := eval vm_compute in listening_engine in
  match v with
  | Some ?x => pose (self := x)
  end.
  let v := eval vm_compute in
    (update numpy2 chop_frames (constant_model 0.95) 2 self (silence 3200)) in
  match v with
  | Some (?x, _) => pose (self' := x)
  end.
  destruct (reported_wake_word_has_probability numpy2 chop_frames (constant_model 0.95) 2
              self self' (silence 3200)) as (prob & Ep & _ & _ & A);
    [vm_compute; discriminate | vm_compute; reflexivity |].
  exists self, self', prob.
  split; [vm_compute; reflexivity |]. split; [exact Ep | exact A].
Defined.

(** X17: [update] never resizes the rolling window: it has as many rows
    after the call as before, whatever the call returned or raised. *)
Theorem window_never_resized
    (np : numpy)
    (mfcc_spec : list Q -> Z -> Z * Z -> Z -> Z -> Z -> list frame)
    (interpreter : list frame -> float)
    (fuel : nat) (self self' : TFLiteHotWordEngine) (chunk : list byte)
    (r : result bool) :
  update np mfcc_spec interpreter fuel self chunk = Some (self', r) ->
  length (_inputs self') = length (_inputs self).
Proof.
  unfold update.
  destruct (process_windows np mfcc_spec interpreter fuel _) as [[s ru] |] eqn:P;
    [| discriminate].
  intros E.
  assert (S : self' = s) by (destruct ru; injection E as <- _; reflexivity).
  subst s.
  apply (process_windows_window_length np mfcc_spec interpreter _ _ _ _ P).
Qed.

Lemma window_never_resized_witness :
  exists (self self' : TFLiteHotWordEngine),
    listening_engine = Some self /\
    update numpy2 chop_frames (constant_model 0.95) 2 self (silence 3200) =
      Some (self', Ok true) /\
    length (_inputs self') = 29%nat.
Proof.
  let v := eval vm_compute in listening_engine in
  match v with
  | Some ?x => pose (self := x)
  end.
  let v := eval vm_compute in
    (update numpy2 chop_frames (constant_model 0.95) 2 self (silence 3200)) in
  match v with
  | Some (?x, _) => pose (self' := x)
  end.
  exists self, self'.
  split; [vm_compute; reflexivity |].
  split; [vm_compute; reflexivity |].
  apply (window_never_resized numpy2 chop_frames (constant_model 0.95) 2
           self self' (silence 3200) (Ok true)).
  vm_compute. reflexivity.
Defined.

(** X18: with a chunk size of 0 no [update] ever returns [True]: the step
    that would trigger divides by the chunk size and raises
    [ZeroDivisionError], leaving the counter incremented. *)
Theorem zero_chunk_size_never_reports
    (np : numpy)
    (mfcc_spec : list Q -> Z -> Z * Z -> Z -> Z -> Z -> list frame)
    (interpreter : list frame -> float) :
  (forall (fuel : nat) (self self' : TFLiteHotWordEngine) (chunk : list byte),
     chunk_size self = 0 ->
     update np mfcc_spec interpreter fuel self chunk <> Some (self', Ok true)) /\
  (forall (sens : float) (tl a : Z) (p : float),
     activated np sens p = true -> tl <= a ->
     decode np sens tl 0 a p = (a + 1, Raise ZeroDivisionError)).
Proof.
  split.
  - intros fuel self self' chunk Z0 U.
    destruct (update_found np mfcc_spec interpreter _ _ _ _ U) as [NZ _].
    contradiction.
  - intros sens tl a p A L. unfold decode, floordiv. rewrite A. cbn [orb].
    destruct (Z.ltb_spec tl (a + 1)); [reflexivity | lia].
Qed.

Lemma zero_chunk_size_never_reports_witness :
  decode numpy2 0.7 4 0 4 0.95 = (5, Raise ZeroDivisionError).
Proof.
  apply (proj2 (zero_chunk_size_never_reports numpy2 chop_frames (constant_model 0.95))
           0.7%float 4 4 0.95%float); [reflexivity | lia].
Defined.

(** ** The rolling window: filling and sliding *)

Section WindowFacts.

Variable mfcc_spec : list Q -> Z -> Z * Z -> Z -> Z -> Z -> list frame.



(** More rows than the window has cannot be assigned. *)
Lemma assign_rows_too_many (inputs rows : list frame) (idx : Z) :
  (1 <= length inputs < length rows)%nat ->
  assign_rows inputs idx (Z.of_nat (length inputs)) rows = Raise ValueError.
Proof.
  intros [C N]. unfold assign_rows.
  pose proof (slice_bound_range (Z.of_nat (length inputs)) idx ltac:(lia)) as Bs.
  pose proof (slice_bound_range (Z.of_nat (length inputs))
                (Z.of_nat (length inputs)) ltac:(lia)) as Be.
  set (start := slice_bound (Z.of_nat (length inputs)) idx) in *.
  set (stop := slice_bound (Z.of_nat (length inputs)) (Z.of_nat (length inputs))) in *.
  destruct (Z.eqb_spec (Z.of_nat (length rows)) (Z.max 0 (stop - start))); [lia |].
  destruct rows as [| r1 [| r2 rows]]; try reflexivity; cbn [length] in N; lia.
Qed.

End WindowFacts.



(** X20: when one extraction gives more frames than the window has rows,
    [update] raises [ValueError] from the assignment into the window, and
    the cursor is left negative. *)
Theorem too_many_frames_raise
    (mfcc_spec : list Q -> Z -> Z * Z -> Z -> Z -> Z -> list frame)
    (self : TFLiteHotWordEngine) (audio : list Q) (w h : Z) :
  buffer_to_audio (_chunk_buffer self) = Ok audio ->
  window_samples (_params self) = Ok w ->
  hop_samples (_params self) = Ok h ->
  let rows :=
    mfcc_spec audio (sample_rate (_params self)) (w, h) (n_filt (_params self))
      (n_fft (_params self)) (n_mfcc (_params self)) in
  0 <= _inputs_idx self ->
  (1 <= length (_inputs self) < length rows)%nat ->
  snd (insert_features mfcc_spec self) = Raise ValueError /\
  _inputs_idx (fst (insert_features mfcc_spec self)) < 0.
Proof.
  intros A W H rows I N.
  unfold insert_features. rewrite A, W, H. cbn [bind]. fold rows.
  cbn [set_chunk_buffer _inputs _inputs_idx].
  destruct (Z.ltb_spec (Z.of_nat (length (_inputs self)))
              (_inputs_idx self + Z.of_nat (length rows))) as [R | R]; [| lia].
  cbn [set_inputs set_inputs_idx _inputs _inputs_idx].
  pose proof (assign_rows_too_many
                (roll_left (Z.of_nat (length rows)) (_inputs self)) rows
                (Z.of_nat (length (_inputs self)) - Z.of_nat (length rows))) as E.
  rewrite roll_left_length in E. rewrite (E N).
  cbn [fst snd set_inputs set_inputs_idx _inputs _inputs_idx].
  split; [reflexivity | lia].
Qed.

Lemma too_many_frames_raise_witness :
  snd (insert_features chop_frames
         {| sensitivity := 0.7; trigger_level := 4; chunk_size := 2048;
            _params := default_params; _inputs := [[0%float]]; _inputs_idx := 0;
            _window_bytes := 3200; _hop_bytes := 1600;
            _chunk_buffer := silence 4800; _activation := 0;
            _is_found := false; _probability := None |}) = Raise ValueError.
Proof.
  refine (proj1 (too_many_frames_raise chop_frames _ (repeat (Qmake 0 32768) 2400) 1600 800
                   _ _ _ _ _));
    [ vm_compute; reflexivity | vm_compute; reflexivity | vm_compute; reflexivity
    | vm_compute; discriminate | vm_compute; lia ].
Defined.

(** ** One pass of the loop for each call *)

Section OnePass.

Variable np : numpy.
Variable mfcc_spec : list Q -> Z -> Z * Z -> Z -> Z -> Z -> list frame.
Variable interpreter : list frame -> float.

(** [sonopy] chops the audio into one frame for each position of the
    window: none when the audio is shorter than a window, and one more for
    every whole hop that fits after the first window. *)
Hypothesis frame_for_each_position :
  forall audio : list Q,
    Z.of_nat (length (mfcc_spec audio 16000 (1600, 800) 20 512 13)) =
      if Z.of_nat (length audio) <? 1600 then 0
      else (Z.of_nat (length audio) - 1600) / 800 + 1.

Lemma slice_from_exact_length {A : Type} (k : Z) (l : list A) :
  0 <= k <= Z.of_nat (length l) ->
  Z.of_nat (length (slice_from k l)) = Z.of_nat (length l) - k.
Proof.
  intros K. unfold slice_from. destruct (Z.ltb_spec k 0); [lia |].
  rewrite length_skipn. lia.
Qed.

(** Less than a window is left in the buffer after the frames are
    taken. *)
Lemma insert_features_leaves_less (self s : TFLiteHotWordEngine) (full : bool) :
  _params self = default_params -> _hop_bytes self = 1600 ->
  3200 <= Z.of_nat (length (_chunk_buffer self)) ->
  insert_features mfcc_spec self = (s, Ok full) ->
  Z.of_nat (length (_chunk_buffer s)) < 3200.
Proof.
  intros P Hb W. unfold insert_features.
  rewrite P, default_window_samples, default_hop_samples, Hb.
  destruct (buffer_to_audio (_chunk_buffer self)) as [audio | e] eqn:A;
    cbn [bind]; [| discriminate].
  pose proof (buffer_to_audio_length _ _ A) as L.
  change (sample_rate default_params) with 16000.
  change (n_filt default_params) with 20.
  change (n_fft default_params) with 512.
  change (n_mfcc default_params) with 13.
  pose proof (frame_for_each_position audio) as F.
  set (rows := mfcc_spec audio 16000 (1600, 800) 20 512 13) in *.
  destruct (Z.ltb_spec (Z.of_nat (length audio)) 1600); [lia |].
  pose proof (Z.div_mod (Z.of_nat (length audio) - 1600) 800 ltac:(lia)) as D.
  pose proof (Z.mod_pos_bound (Z.of_nat (length audio) - 1600) 800 ltac:(lia)) as B.
  assert (Sh : Z.of_nat (length (slice_from (Z.of_nat (length rows) * 1600)
                                   (_chunk_buffer self))) < 3200)
    by (rewrite slice_from_exact_length; lia).
  cbn [set_chunk_buffer _inputs _inputs_idx].
  match goal with |- context [if ?c then _ else _] => destruct c end;
    match goal with |- context [assign_rows ?a ?b ?c ?d] =>
      destruct (assign_rows a b c d) end;
    intros E; try discriminate E; injection E as <- _; exact Sh.
Qed.

Lemma body_leaves_less (self s : TFLiteHotWordEngine) (f : flow) :
  _params self = default_params -> _hop_bytes self = 1600 ->
  3200 <= Z.of_nat (length (_chunk_buffer self)) ->
  body np mfcc_spec interpreter self = (s, Ok f) ->
  Z.of_nat (length (_chunk_buffer s)) < 3200.
Proof.
  intros P Hb W. unfold body.
  destruct (insert_features mfcc_spec self) as [s1 [[|] | e]] eqn:I;
    intros E; try discriminate E.
  - pose proof (insert_features_leaves_less _ _ _ P Hb W I) as Sh.
    pose proof (score_keeps_buffer np interpreter s1) as K.
    rewrite E in K. cbn [fst] in K. rewrite K. exact Sh.
  - injection E as <- _. apply (insert_features_leaves_less _ _ _ P Hb W I).
Qed.

End OnePass.

(** X21: with the parameters of [ListenerParams()] and an extractor that
    gives a frame for each position of the window, as [sonopy] does, the
    loop of [update] runs its body at most once for each call, whatever
    the size of the chunk: one pass is enough for the call to end, and
    when it returns less than a window of audio is left in the buffer. *)
Theorem one_pass_for_each_update
    (np : numpy)
    (mfcc_spec : list Q -> Z -> Z * Z -> Z -> Z -> Z -> list frame)
    (interpreter : list frame -> float)
    (self : TFLiteHotWordEngine) (chunk : list byte) :
  (forall audio : list Q,
     Z.of_nat (length (mfcc_spec audio 16000 (1600, 800) 20 512 13)) =
       if Z.of_nat (length audio) <? 1600 then 0
       else (Z.of_nat (length audio) - 1600) / 800 + 1) ->
  _params self = default_params ->
  _window_bytes self = 3200 -> _hop_bytes self = 1600 ->
  exists (self' : TFLiteHotWordEngine) (r : result bool),
    update np mfcc_spec interpreter 1 self chunk = Some (self', r) /\
    (forall found : bool,
       r = Ok found -> Z.of_nat (length (_chunk_buffer self')) < 3200).
Proof.
  intros F P Hw Hb. unfold update.
  set (st := set_probability None
               (set_chunk_buffer (_chunk_buffer (set_is_found false self) ++ chunk)
                  (set_is_found false self))).
  assert (Pst : _params st = default_params) by exact P.
  assert (Wst : _window_bytes st = 3200) by exact Hw.
  assert (Hst : _hop_bytes st = 1600) by exact Hb.
  cbn [process_windows]. rewrite Wst.
  destruct (Z.leb_spec 3200 (Z.of_nat (length (_chunk_buffer st)))) as [W | W].
  - pose proof (body_keeps_settings np mfcc_spec interpreter st) as (_ & _ & _ & _ & Ew & _).
    destruct (body np mfcc_spec interpreter st) as [s [f | e]] eqn:B; cbn [fst] in Ew.
    + pose proof (body_leaves_less np mfcc_spec interpreter F st s f Pst Hst W B) as Sh.
      destruct f.
      * rewrite Ew, Wst.
        destruct (Z.leb_spec 3200 (Z.of_nat (length (_chunk_buffer s)))); [lia |].
        eexists. eexists. split; [reflexivity | intros; exact Sh].
      * eexists. eexists. split; [reflexivity | intros; exact Sh].
    + eexists. eexists. split; [reflexivity | discriminate].
  - eexists. eexists. split; [reflexivity | intros; exact W].
Qed.

Lemma chop_frames_for_each_position (audio : list Q) :
  Z.of_nat (length (chop_frames audio 16000 (1600, 800) 20 512 13)) =
    if Z.of_nat (length audio) <? 1600 then 0
    else (Z.of_nat (length audio) - 1600) / 800 + 1.
Proof.
  unfold chop_frames.
  destruct (Z.ltb_spec (Z.of_nat (length audio)) 1600); [reflexivity |].
  cbn [orb Z.leb Z.compare]. rewrite repeat_length.
  pose proof (Z.div_pos (Z.of_nat (length audio) - 1600) 800 ltac:(lia) ltac:(lia)).
  lia.
Qed.

Lemma one_pass_for_each_update_witness :
  exists (fresh self' : TFLiteHotWordEngine) (r : result bool),
    __init__ 0.7 4 2048 = Ok fresh /\
    update numpy2 chop_frames (constant_model 0.95) 1 fresh (silence 4800) =
      Some (self', r).
Proof.
  let v := eval vm_compute in (__init__ 0.7 4 2048) in
  match v with
  | Ok ?x => pose (fresh := x)
  end.
  destruct (one_pass_for_each_update numpy2 chop_frames (constant_model 0.95) fresh
              (silence 4800) chop_frames_for_each_position)
    as (self' & r & U & _); [reflexivity | reflexivity | reflexivity |].
  exists fresh, self', r. split; [vm_compute; reflexivity | exact U].
Defined.

(** X22: with the parameters of [ListenerParams()] and any extractor that
    gives at least one frame for audio of one window or more, [update]
    returns or raises: its loop ends within as many passes as the buffer
    has bytes. *)
Theorem update_returns
    (np : numpy)
    (mfcc_spec : list Q -> Z -> Z * Z -> Z -> Z -> Z -> list frame)
    (interpreter : list frame -> float)
    (self : TFLiteHotWordEngine) (chunk : list byte) :
  (forall audio : list Q,
     1600 <= Z.of_nat (length audio) ->
     mfcc_spec audio 16000 (1600, 800) 20 512 13 <> []) ->
  _params self = default_params ->
  _window_bytes self = 3200 -> _hop_bytes self = 1600 ->
  exists (self' : TFLiteHotWordEngine) (r : result bool),
    update np mfcc_spec interpreter (length (_chunk_buffer self ++ chunk)) self chunk =
    Some (self', r).
Proof.
  intros F P Hw Hb. apply update_ends; assumption.
Qed.

Lemma update_returns_witness :
  exists (fresh self' : TFLiteHotWordEngine) (r : result bool),
    __init__ 0.7 4 2048 = Ok fresh /\
    update numpy2 chop_frames (constant_model 0.95) 3200 fresh (silence 3200) =
      Some (self', r).
Proof.
  let v := eval vm_compute in (__init__ 0.7 4 2048) in
  match v with
  | Ok ?x => pose (fresh := x)
  end.
  destruct (update_returns numpy2 chop_frames (constant_model 0.95) fresh (silence 3200)
              chop_frames_one_per_window)
    as (self' & r & U); [reflexivity | reflexivity | reflexivity |].
  exists fresh, self', r. split; [vm_compute; reflexivity | exact U].
Defined.
